(** * groundstate: the observable [Store] and the [useStore] binding

    A shallow embedding of [Store.ts] and [useStore.ts].  The store's
    methods are Rocq functions over an explicit store record; the observers
    a client registers are scripts of store operations, so that an observer
    can subscribe, unsubscribe, re-enter [setState] or throw while a
    notification is running. *)

From Stdlib Require Import QArith.QArith_base QArith.Qcanon.
From stdpp Require Import base decidable option numbers strings functions list.

(** ** JavaScript values *)

(** Function objects are compared by reference ([===]); a reference is a
    number, and what a function computes is looked up in a table. *)
Definition fnref := nat.

(** [VFun] is a function that is an instance of [Function], as every
    function made in the realm of the store is.  [VForeignFun] is a
    function that is not: one made in another realm (a frame, a [vm]
    context), or one whose prototype chain no longer reaches
    [Function.prototype].  Both are callable. *)
Inductive value :=
| VUndefined
| VBool (b : bool)
| VNum (n : Z)
| VStr (s : string)
| VFun (f : fnref)
| VForeignFun (f : fnref).

#[global] Instance value_eq_dec : EqDecision value.
Proof. solve_decision. Defined.

(** [typeof v === 'function'] *)
Definition callable (v : value) : bool :=
  match v with
  | VFun _ | VForeignFun _ => true
  | _ => false
  end.

(** [v instanceof Function] *)
Definition instance_of_Function (v : value) : bool :=
  match v with
  | VFun _ => true
  | _ => false
  end.

(** What [throw] carries. *)
Inductive exn :=
| Error (msg : string)
| TypeError (msg : string).

#[global] Instance exn_eq_dec : EqDecision exn.
Proof. solve_decision. Defined.

(** ** Store.ts *)

Module StoreModel.

Section Store.

(** Identities of the observer function objects ([StoreUpdateCallback]). *)
Context {callback : Type} `{EqDecision callback}.
(** The part of the program's heap outside the store that observers write. *)
Context {X : Type}.

(** [class Store<T>]: fields [state] and [callbacks]. *)
Record Store := mkStore {
  state : value;
  callbacks : list callback;
}.

(** [constructor(data)] *)
Definition constructor (data : value) : Store :=
  {| state := data; callbacks := [] |}.

(** [getState()] *)
Definition getState (s : Store) : value := state s.

(** [subscribe(callback)]: [this.callbacks.push(callback)].  The function it
    returns closes over [callback] only, so it is [unsubscribe callback]. *)
Definition subscribe (cb : callback) (s : Store) : Store :=
  {| state := state s; callbacks := callbacks s ++ [cb] |}.

(** The loop of the returned function,
    [for (let i = length - 1; i >= 0; i--) if (callbacks[i] === callback) callbacks.splice(i, 1)].
    The counter [n] is [i + 1]; [delete i l] is [splice(i, 1)]. *)
Fixpoint unsubscribe_loop (n : nat) (cb : callback) (l : list callback)
  : list callback :=
  match n with
  | O => l
  | S i =>
      unsubscribe_loop i cb
        (if decide (l !! i = Some cb) then delete i l else l)
  end.

Definition unsubscribe (cb : callback) (s : Store) : Store :=
  {| state := state s;
     callbacks := unsubscribe_loop (length (callbacks s)) cb (callbacks s) |}.

(** What an observer's body may do. *)
Inductive cmd :=
| CSubscribe (cb : callback)
| CUnsubscribe (cb : callback)
| CSetState (update : value)
| CExternal (f : X -> X)
| CThrow (e : exn).

(** The store together with the external heap and the record of observer
    invocations [(callback, nextState, prevState)], oldest first. *)
Record world := mkWorld {
  store : Store;
  ext : X;
  invoked : list (callback * value * value);
}.

Inductive outcome :=
| Done (w : world)
| Thrown (e : exn) (w : world)
| OutOfFuel.

Definition with_store (f : Store -> Store) (w : world) : world :=
  {| store := f (store w); ext := ext w; invoked := invoked w |}.

Definition with_ext (f : X -> X) (w : world) : world :=
  {| store := store w; ext := f (ext w); invoked := invoked w |}.

Definition record_call (cb : callback) (next prev : value) (w : world) : world :=
  {| store := store w; ext := ext w;
     invoked := invoked w ++ [(cb, next, prev)] |}.

(** The result of calling a function value used as an updater. *)
Context (apply_fn : fnref -> value -> value).
(** The body of each observer, given its two arguments. *)
Context (body : callback -> value -> value -> list cmd).

(** [update instanceof Function ? update(this.state) : update]: the test is
    [instanceof], so of the function values only a [VFun] is called; a
    [VForeignFun] is taken as the next state, like any other value. *)
Definition next_state (update : value) (current : value) : value :=
  match update with
  | VFun f => apply_fn f current
  | _ => update
  end.

Section Notify.

(** The store's own [setState], as an observer sees it when it re-enters. *)
Variable setState_rec : value -> world -> outcome.

Definition exec_cmd (c : cmd) (w : world) : outcome :=
  match c with
  | CSubscribe cb => Done (with_store (subscribe cb) w)
  | CUnsubscribe cb => Done (with_store (unsubscribe cb) w)
  | CSetState update => setState_rec update w
  | CExternal f => Done (with_ext f w)
  | CThrow e => Thrown e w
  end.

Fixpoint exec (cs : list cmd) (w : world) : outcome :=
  match cs with
  | [] => Done w
  | c :: cs' =>
      match exec_cmd c w with
      | Done w' => exec cs' w'
      | o => o
      end
  end.

(** [callback(nextState, prevState)] *)
Definition invoke (cb : callback) (next prev : value) (w : world) : outcome :=
  exec (body cb next prev) (record_call cb next prev w).

(** [for (let callback of this.callbacks) callback(nextState, prevState)]:
    the array iterator keeps an index [i] and reads the array, and its
    length, again at every step.  The array can grow while it is walked, so
    the loop need not end; [fuel] bounds its steps. *)
Fixpoint notify (fuel : nat) (i : nat) (next prev : value) (w : world)
  : outcome :=
  match callbacks (store w) !! i with
  | None => Done w
  | Some cb =>
      match fuel with
      | O => OutOfFuel
      | S k =>
          match invoke cb next prev w with
          | Done w' => notify k (S i) next prev w'
          | o => o
          end
      end
  end.

End Notify.

(** [this.state = nextState] *)
Definition assign (nextState : value) (w : world) : world :=
  with_store (fun s => {| state := nextState; callbacks := callbacks s |}) w.

(** [setState(update)].  An observer may call [setState] again, to any
    depth; [fuel] bounds that depth as well. *)
Fixpoint setState (fuel : nat) (update : value) (w : world) : outcome :=
  match fuel with
  | O => OutOfFuel
  | S k =>
      let prevState := state (store w) in
      let nextState := next_state update (state (store w)) in
      notify (setState k) k 0 nextState prevState (assign nextState w)
  end.

(** Several [setState] calls one after the other. *)
Fixpoint setState_seq (fuel : nat) (updates : list value) (w : world)
  : outcome :=
  match updates with
  | [] => Done w
  | u :: us =>
      match setState fuel u w with
      | Done w' => setState_seq fuel us w'
      | o => o
      end
  end.

(** *** Vocabulary for the statements *)

Definition is_external (c : cmd) : Prop :=
  match c with CExternal _ => True | _ => False end.

(** An observer that only writes outside the store: it leaves the store
    alone and returns normally. *)
Definition passive (cb : callback) : Prop :=
  forall next prev, Forall is_external (body cb next prev).

Definition ext_effect (cs : list cmd) (x : X) : X :=
  fold_left (fun x c => match c with CExternal f => f x | _ => x end) cs x.

Definition round_effect (l : list callback) (next prev : value) (x : X) : X :=
  fold_left (fun x cb => ext_effect (body cb next prev) x) l x.

(** One invocation record per observer of [l], in the order of [l]. *)
Definition calls (l : list callback) (next prev : value)
  : list (callback * value * value) :=
  map (fun cb => (cb, next, prev)) l.

Definition after_round (l : list callback) (next prev : value) (w : world)
  : world :=
  {| store := store w;
     ext := round_effect l next prev (ext w);
     invoked := invoked w ++ calls l next prev |}.

(** The observers invoked since the record had [n] entries. *)
Definition invoked_since (n : nat) (w : world) : list callback :=
  map (fun c => fst (fst c)) (drop n (invoked w)).

(** An observer that is quiet when called with [(next, prev)], whatever it
    does on other arguments. *)
Definition quiet_at (next prev : value) (cb : callback) : Prop :=
  Forall is_external (body cb next prev).

(** The state after a series of updates, each applied to the state the
    one before left. *)
Definition fold_updates (updates : list value) (current : value) : value :=
  fold_left (fun s u => next_state u s) updates current.

(** The invocation records of a series of updates: one round per update,
    each with the state the update gives and the state it found. *)
Fixpoint seq_calls (l : list callback) (updates : list value)
    (current : value) : list (callback * value * value) :=
  match updates with
  | [] => []
  | u :: us =>
      calls l (next_state u current) current
      ++ seq_calls l us (next_state u current)
  end.

(** How often [cb] occurs in [l]. *)
Definition occurrences (cb : callback) (l : list callback) : nat :=
  length (filter (fun x => x = cb) l).

End Store.

Arguments Store : clear implicits.
Arguments cmd : clear implicits.
Arguments world : clear implicits.
Arguments outcome : clear implicits.

End StoreModel.

(** ** Observers used in the examples *)

Module Scenario.

Import StoreModel.

(** The two-element array [testValue] of tests.ts. *)
Definition testValue := (Z * Z)%type.

Definition num (v : value) : Z :=
  match v with VNum n => n | _ => 0%Z end.

Definition A : nat := 0.
Definition B : nat := 1.
Definition registrar : nat := 2.
Definition late : nat := 3.
Definition leaver : nat := 4.
Definition thrower : nat := 5.

(** [A] and [B] are the observers of tests.ts,
    [state => { testValue[0] += state }] and
    [state => { testValue[1] *= state }]; [registrar] subscribes [late],
    [leaver] calls its own unsubscribe function, [thrower] throws. *)
Definition body (cb : nat) (next prev : value) : list (cmd nat testValue) :=
  match cb with
  | 0 => [CExternal (fun t => (fst t + num next, snd t)%Z)]
  | 1 => [CExternal (fun t => (fst t, snd t * num next)%Z)]
  | 2 => [CSubscribe late]
  | 4 => [CUnsubscribe leaver]
  | 5 => [CThrow (Error "boom")]
  | _ => []
  end.

(** No function-valued state is used in tests.ts; updaters are looked up
    here: [0] is [value => value + 1], every other reference returns the
    function [9]. *)
Definition apply_fn (f : fnref) (v : value) : value :=
  match f with
  | 0 => VNum (num v + 1)
  | _ => VFun 9
  end.

Definition world_of (s : Store nat) : world nat testValue :=
  {| store := s; ext := (100, -3)%Z; invoked := [] |}.

(** [new Store(10)] with [A] and [B] subscribed. *)
Definition tests_store : Store nat :=
  subscribe B (subscribe A (constructor (VNum 10))).

End Scenario.

(** ** useStore.ts *)

Module HookModel.

Import StoreModel.

(** References to store objects. *)
Definition storeref := nat.

(** [type ShouldUpdate<T> = boolean | ShouldUpdateCallback<T>] *)
Inductive ShouldUpdate :=
| SUBool (b : bool)
| SUFun (f : fnref).

#[global] Instance ShouldUpdate_eq_dec : EqDecision ShouldUpdate.
Proof. solve_decision. Defined.

(** The truth value [!shouldUpdate] negates: a function is truthy. *)
Definition truthy (shouldUpdate : ShouldUpdate) : bool :=
  match shouldUpdate with
  | SUBool b => b
  | SUFun _ => true
  end.

(** What a caller may pass as [store]: an object with the store's methods,
    kept in the heap under a reference, or any other value. *)
Inductive jsarg :=
| AStore (r : storeref)
| AOther (v : value).

(** The arrow function of lines 41–47, the only function the hook hands to
    [subscribe].  It closes over [shouldUpdate]; [id] tells apart the
    function objects made by different runs of the effect. *)
Inductive hookfn :=
| Subscriber (id : nat) (shouldUpdate : ShouldUpdate).

#[global] Instance hookfn_eq_dec : EqDecision hookfn.
Proof. solve_decision. Defined.

(** [store.setState.bind(store)]: a new function object whose [this] is
    the store. *)
Record boundfn := mkBound {
  bf_id : nat;
  bf_this : storeref;
}.

(** The hook slots of one component instance.  [set_calls] counts the calls
    of [setRevision] and [rerenders] those among them that changed the
    state, which are the ones React re-renders for. *)
Record Component := mkComponent {
  revision : Qc;
  inited : bool;
  memo : option (storeref * boundfn);
  effect_deps : option (storeref * ShouldUpdate);
  cleanup : option (storeref * hookfn);
  pending : option (storeref * ShouldUpdate);
  set_calls : nat;
  rerenders : nat;
}.

(** A component at its first render: [useState(-1)], [useRef(false)], no
    memoized value, no effect run yet. *)
Definition mount : Component :=
  {| revision := (- 1)%Qc; inited := false; memo := None;
     effect_deps := None; cleanup := None; pending := None;
     set_calls := 0; rerenders := 0 |}.

(** The component, the number of [Math.random()] calls made so far, and the
    next unused function-object identity. *)
Record Host := mkHost {
  comp : Component;
  draws : nat;
  next_fn : nat;
}.

Record hworld := mkHWorld {
  stores : storeref -> Store hookfn;
  host : Host;
}.

Definition with_comp (f : Component -> Component) (h : Host) : Host :=
  {| comp := f (comp h); draws := draws h; next_fn := next_fn h |}.

Definition with_host (f : Host -> Host) (w : hworld) : hworld :=
  {| stores := stores w; host := f (host w) |}.

Definition set_inited (b : bool) (c : Component) : Component :=
  {| revision := revision c; inited := b; memo := memo c;
     effect_deps := effect_deps c; cleanup := cleanup c;
     pending := pending c; set_calls := set_calls c;
     rerenders := rerenders c |}.

Definition set_memo (m : option (storeref * boundfn)) (c : Component)
  : Component :=
  {| revision := revision c; inited := inited c; memo := m;
     effect_deps := effect_deps c; cleanup := cleanup c;
     pending := pending c; set_calls := set_calls c;
     rerenders := rerenders c |}.

Definition set_pending (p : option (storeref * ShouldUpdate)) (c : Component)
  : Component :=
  {| revision := revision c; inited := inited c; memo := memo c;
     effect_deps := effect_deps c; cleanup := cleanup c;
     pending := p; set_calls := set_calls c;
     rerenders := rerenders c |}.

Definition set_effect (deps : option (storeref * ShouldUpdate))
    (cl : option (storeref * hookfn)) (c : Component) : Component :=
  {| revision := revision c; inited := inited c; memo := memo c;
     effect_deps := deps; cleanup := cl;
     pending := pending c; set_calls := set_calls c;
     rerenders := rerenders c |}.

(** The setter of [useState]: the state is replaced, and React re-renders
    when the new value differs from the old one. *)
Definition setRevision (v : Qc) (c : Component) : Component :=
  {| revision := v; inited := inited c; memo := memo c;
     effect_deps := effect_deps c; cleanup := cleanup c;
     pending := pending c; set_calls := S (set_calls c);
     rerenders :=
       if decide (v = revision c) then rerenders c else S (rerenders c) |}.

(** The render token, the number of forced renders, and the number of
    them the host saw as a change. *)
Definition token (w : hworld) : Qc := revision (comp (host w)).
Definition forced (w : hworld) : nat := set_calls (comp (host w)).
Definition observed (w : hworld) : nat := rerenders (comp (host w)).

Definition InvalidArgument : exn :=
  Error "'store' is not an instance of Store".

(** What one call of the hook gives back. *)
Inductive rendered :=
| Returned (state : value) (setState : boundfn) (w : hworld)
| Threw (e : exn) (w : hworld).

Section Hook.

(** [isStore] of ./isStore, which is not among the sources. *)
Context (isStore : jsarg -> bool).
(** The result of the [n]-th call of [Math.random()]. *)
Context (random : nat -> Qc).
(** The truth value of a [ShouldUpdateCallback], by reference. *)
Context (predicate : fnref -> value -> value -> bool).
Context (apply_fn : fnref -> value -> value).

(** [setRevision(Math.random())] *)
Definition force_render (h : Host) : Host :=
  {| comp := setRevision (random (draws h)) (comp h);
     draws := S (draws h);
     next_fn := next_fn h |}.

(** [typeof shouldUpdate !== 'function' || shouldUpdate(nextState, prevState)] *)
Definition responds (shouldUpdate : ShouldUpdate) (next prev : value) : bool :=
  match shouldUpdate with
  | SUBool _ => true
  | SUFun p => predicate p next prev
  end.

(** Lines 41–47, the body of the subscribed arrow function. *)
Definition subscriber_body (cb : hookfn) (next prev : value)
  : list (cmd hookfn Host) :=
  match cb with
  | Subscriber _ shouldUpdate =>
      if responds shouldUpdate next prev then [CExternal force_render] else []
  end.

(** Line 36, [useMemo(() => store.setState.bind(store), [store])]. *)
Definition useMemo_setState (r : storeref) (h : Host) : boundfn * Host :=
  match memo (comp h) with
  | Some (r', fn) =>
      if decide (r' = r) then (fn, h)
      else
        let fn' := {| bf_id := next_fn h; bf_this := r |} in
        (fn', {| comp := set_memo (Some (r, fn')) (comp h);
                 draws := draws h; next_fn := S (next_fn h) |})
  | None =>
      let fn' := {| bf_id := next_fn h; bf_this := r |} in
      (fn', {| comp := set_memo (Some (r, fn')) (comp h);
               draws := draws h; next_fn := S (next_fn h) |})
  end.

(** The render phase, lines 30–36 and 60.  [useEffect] only notes the effect
    and its dependencies; it runs at [commit]. *)
Definition useStore (store : jsarg) (shouldUpdate : ShouldUpdate) (w : hworld)
  : rendered :=
  if negb (isStore store) then Threw InvalidArgument w
  else
    match store with
    | AOther _ => Threw (TypeError "store.getState is not a function") w
    | AStore r =>
        let state := getState (stores w r) in
        let '(setState, h) := useMemo_setState r (host w) in
        Returned state setState
          {| stores := stores w;
             host := with_comp (set_pending (Some (r, shouldUpdate))) h |}
    end.

(** Lines 39–57, the effect. *)
Definition run_effect (r : storeref) (shouldUpdate : ShouldUpdate) (w : hworld)
  : hworld :=
  if negb (truthy shouldUpdate) then
    with_host (with_comp (set_effect (Some (r, shouldUpdate)) None)) w
  else
    let cb := Subscriber (next_fn (host w)) shouldUpdate in
    let stores' := <[r := subscribe cb (stores w r)]> (stores w) in
    let h := {| comp := comp (host w); draws := draws (host w);
                next_fn := S (next_fn (host w)) |} in
    let h' :=
      if negb (inited (comp h))
      then force_render (with_comp (set_inited true) h)
      else h in
    {| stores := stores';
       host := with_comp (set_effect (Some (r, shouldUpdate)) (Some (r, cb))) h' |}.

(** Lines 54–57, the function the effect returns. *)
Definition run_cleanup (cl : storeref * hookfn) (w : hworld) : hworld :=
  let '(r, cb) := cl in
  {| stores := <[r := unsubscribe cb (stores w r)]> (stores w);
     host := with_comp (set_inited false) (host w) |}.

Definition cleanup_if_any (w : hworld) : hworld :=
  match cleanup (comp (host w)) with
  | Some cl => run_cleanup cl w
  | None => w
  end.

(** After a render React runs the effect when it is the first one or when
    [[store, shouldUpdate]] differs from the dependencies of the last run,
    calling the function that run returned first. *)
Definition commit (w : hworld) : hworld :=
  match pending (comp (host w)) with
  | None => w
  | Some (r, shouldUpdate) =>
      if decide (effect_deps (comp (host w)) = Some (r, shouldUpdate)) then w
      else run_effect r shouldUpdate (cleanup_if_any w)
  end.

(** One render of the component: the hook is called, and the effects are
    committed unless it threw. *)
Definition render (store : jsarg) (shouldUpdate : ShouldUpdate) (w : hworld)
  : hworld :=
  match useStore store shouldUpdate w with
  | Returned _ _ w' => commit w'
  | Threw _ w' => w'
  end.

(** Removing the component: React calls the function the effect returned
    and drops the hook slots. *)
Definition unmount (w : hworld) : hworld :=
  let w' := cleanup_if_any w in
  {| stores := stores w';
     host := {| comp := mount; draws := draws (host w');
                next_fn := next_fn (host w') |} |}.

(** [setState(update)] on the store [r], as the bound function of line 36
    or any other holder of the store calls it.  The subscribers of this
    module leave the store alone, so one unit of fuel per observer and one
    for the call are enough ([store_setState_done]). *)
Definition store_setState (r : storeref) (update : value) (w : hworld)
  : outcome hookfn Host :=
  setState apply_fn subscriber_body (S (length (callbacks (stores w r))))
    update {| store := stores w r; ext := host w; invoked := [] |}.

Definition after_setState (r : storeref) (update : value) (w : hworld)
  : hworld :=
  match store_setState r update w with
  | Done w' | Thrown _ w' =>
      {| stores := <[r := store w']> (stores w); host := ext w' |}
  | OutOfFuel => w
  end.

(** Calling the function the hook returned. *)
Definition call_bound (fn : boundfn) (update : value) (w : hworld) : hworld :=
  after_setState (bf_this fn) update w.

(** What can happen to a mounted component and the stores it uses. *)
Inductive event :=
| ERender (store : jsarg) (shouldUpdate : ShouldUpdate)
| ESetState (r : storeref) (update : value)
| EUnmount.

Definition step (w : hworld) (e : event) : hworld :=
  match e with
  | ERender store shouldUpdate => render store shouldUpdate w
  | ESetState r update => after_setState r update w
  | EUnmount => unmount w
  end.

Definition run (es : list event) (w : hworld) : hworld :=
  fold_left step es w.

(** A component about to render for the first time, over given stores. *)
Definition initial (ss : storeref -> Store hookfn) : hworld :=
  {| stores := ss;
     host := {| comp := mount; draws := 0; next_fn := 0 |} |}.

Definition reachable (w : hworld) : Prop :=
  exists ss es, w = run es (initial ss).

(** What holds of the hook slots along every run: the flag [inited] is set
    only while a subscription is held, the memoized function is older than
    any function object still to be made, and the token is [-1] until the
    first [setRevision] and the latest draw afterwards. *)
Definition slots_ok (h : Host) : Prop :=
  (cleanup (comp h) = None -> inited (comp h) = false)
  /\ (forall r fn, memo (comp h) = Some (r, fn) ->
        bf_id fn < next_fn h /\ bf_this fn = r)
  /\ ((set_calls (comp h) = 0 /\ revision (comp h) = (- 1)%Qc)
      \/ (0 < set_calls (comp h) /\ 0 < draws h
          /\ revision (comp h) = random (draws h - 1))).

(** Events that keep the component mounted and bound to the store [r]. *)
Definition keeps_store (r : storeref) (e : event) : Prop :=
  match e with
  | ERender (AStore r') _ => r' = r
  | ERender (AOther _) _ => True
  | ESetState _ _ => True
  | EUnmount => False
  end.

(** The successive values of the render token along a run. *)
Fixpoint tokens (es : list event) (w : hworld) : list Qc :=
  match es with
  | [] => [revision (comp (host w))]
  | e :: es' => revision (comp (host w)) :: tokens es' (step w e)
  end.

(** No store has an observer. *)
Definition unobserved (w : hworld) : Prop :=
  forall r, callbacks (stores w r) = [].

(** A run that starts with no observer on any store. *)
Definition reachable_unobserved (w : hworld) : Prop :=
  exists ss es,
    (forall r, callbacks (ss r) = []) /\ w = run es (initial ss).

(** The observers the component has on the store [r]: the subscriber whose
    unsubscribe function it holds, when that one is on [r]. *)
Definition own_subscription (w : hworld) (r : storeref) : list hookfn :=
  match cleanup (comp (host w)) with
  | Some (r0, cb) => if decide (r0 = r) then [cb] else []
  | None => []
  end.

(** The stores hold the subscriber of the current binding and nothing
    else, and the component holds an unsubscribe function exactly when the
    last effect ran with a truthy [shouldUpdate]. *)
Definition binding_ok (w : hworld) : Prop :=
  (forall r, callbacks (stores w r) = own_subscription w r)
  /\ match cleanup (comp (host w)) with
     | Some (r0, cb) =>
         exists id su,
           cb = Subscriber id su
           /\ effect_deps (comp (host w)) = Some (r0, su)
           /\ truthy su = true
     | None =>
         forall r su,
           effect_deps (comp (host w)) = Some (r, su) -> truthy su = false
     end.

(** *** Earlier versions of the hook *)

(** The effect of the version that sets the flag before subscribing and
    returns the unsubscribe function as it is:
    [if (!isResponsive) return;
     if (!initedRef.current) { initedRef.current = true; setRevision(Math.random()); }
     return store.subscribe(...)]. *)
Definition run_effect_flag_kept (r : storeref) (shouldUpdate : ShouldUpdate)
    (w : hworld) : hworld :=
  if negb (truthy shouldUpdate) then
    with_host (with_comp (set_effect (Some (r, shouldUpdate)) None)) w
  else
    let h :=
      if negb (inited (comp (host w)))
      then force_render (with_comp (set_inited true) (host w))
      else host w in
    let cb := Subscriber (next_fn h) shouldUpdate in
    {| stores := <[r := subscribe cb (stores w r)]> (stores w);
       host :=
         with_comp (set_effect (Some (r, shouldUpdate)) (Some (r, cb)))
           {| comp := comp h; draws := draws h; next_fn := S (next_fn h) |} |}.

(** The effect of the first version, without the flag:
    [if (!isResponsive) return; return store.subscribe(...)]. *)
Definition run_effect_plain (r : storeref) (shouldUpdate : ShouldUpdate)
    (w : hworld) : hworld :=
  if negb (truthy shouldUpdate) then
    with_host (with_comp (set_effect (Some (r, shouldUpdate)) None)) w
  else
    let cb := Subscriber (next_fn (host w)) shouldUpdate in
    {| stores := <[r := subscribe cb (stores w r)]> (stores w);
       host :=
         with_comp (set_effect (Some (r, shouldUpdate)) (Some (r, cb)))
           {| comp := comp (host w); draws := draws (host w);
              next_fn := S (next_fn (host w)) |} |}.

(** In both the function the effect returns is the one [subscribe]
    returned: it unsubscribes and leaves the flag alone. *)
Definition unsubscribe_if_any (w : hworld) : hworld :=
  match cleanup (comp (host w)) with
  | Some (r, cb) =>
      {| stores := <[r := unsubscribe cb (stores w r)]> (stores w);
         host := host w |}
  | None => w
  end.

(** The commit and the render of an earlier version, given its effect. *)
Definition commit_earlier
    (effect : storeref -> ShouldUpdate -> hworld -> hworld) (w : hworld)
  : hworld :=
  match pending (comp (host w)) with
  | None => w
  | Some (r, shouldUpdate) =>
      if decide (effect_deps (comp (host w)) = Some (r, shouldUpdate)) then w
      else effect r shouldUpdate (unsubscribe_if_any w)
  end.

(** The render phase of these versions is that of [useStore], their check
    ([store instanceof Store] in the first one) standing for [isStore]. *)
Definition render_earlier
    (effect : storeref -> ShouldUpdate -> hworld -> hworld)
    (store : jsarg) (shouldUpdate : ShouldUpdate) (w : hworld) : hworld :=
  match useStore store shouldUpdate w with
  | Returned _ _ w' => commit_earlier effect w'
  | Threw _ w' => w'
  end.

End Hook.

End HookModel.

(** ** A component used in the examples *)

Module HookScenario.

Import StoreModel HookModel.

(** Modelled from the spec: [isStore] of ./isStore, which is not among the
    sources.  It is a capability check: true of any value that exposes the
    store's [getState], [setState] and [subscribe], false of primitives, of
    plain objects without these methods and of [undefined]. *)
Definition isStore (a : jsarg) : bool :=
  match a with
  | AStore _ => true
  | AOther _ => false
  end.

(** A [Math.random] that returns 0.5 at every call. *)
Definition steady (n : nat) : Qc := Q2Qc (1 # 2).

(** A [Math.random] that returns 0.75 and 0.25 in turn. *)
Definition alternating (n : nat) : Qc :=
  if Nat.even n then Q2Qc (3 # 4) else Q2Qc (1 # 4).

(** The only predicate: [(nextState, prevState) => nextState !== prevState]. *)
Definition predicate (f : fnref) (next prev : value) : bool :=
  bool_decide (next <> prev).

(** Every reference denotes a store made by [new Store(0)]. *)
Definition stores0 (r : storeref) : Store hookfn := constructor (VNum 0).

(** The component binds to store [0], then the store is set twice. *)
Definition two_updates : list event :=
  [ERender (AStore 0) (SUBool true);
   ESetState 0 (VNum 5);
   ESetState 0 (VNum 6)].

End HookScenario.

(** ** More observers for the examples *)

Module ScenarioRounds.

Import StoreModel.

Definition remover : nat := 6.
Definition nester : nat := 7.
Definition looper : nat := 8.
Definition grower : nat := 9.

(** [remover] calls the unsubscribe function of [Scenario.B]; [nester]
    calls [setState(3)] when the next state is [2]; [looper] calls
    [setState(0)] every time; [grower] subscribes itself every time.  The
    other observers are those of [Scenario]. *)
Definition body (cb : nat) (next prev : value)
  : list (cmd nat Scenario.testValue) :=
  match cb with
  | 6 => [CUnsubscribe Scenario.B]
  | 7 => if decide (next = VNum 2) then [CSetState (VNum 3)] else []
  | 8 => [CSetState (VNum 0)]
  | 9 => [CSubscribe grower]
  | _ => Scenario.body cb next prev
  end.

End ScenarioRounds.

(** * Properties of the store *)

Section StoreFacts.

Import StoreModel.

Context {callback : Type} `{EqDecision callback} {X : Type}.
Context (apply_fn : fnref -> value -> value).
Context (body : callback -> value -> value -> list (cmd callback X)).

Implicit Types (w : world callback X) (s : Store callback) (cb : callback).
Implicit Types (l pre post : list callback) (next prev : value).

(** *** Unsubscribing *)

Lemma unsubscribe_loop_spec n cb l :
  n <= length l ->
  unsubscribe_loop n cb l = filter (fun x => x <> cb) (take n l) ++ drop n l.
Proof.
  revert l. induction n as [|i IH]; intros l Hn; simpl.
  - by rewrite drop_0.
  - destruct (lookup_lt_is_Some_2 l i ltac:(lia)) as [x Hx].
    rewrite (take_S_r _ _ _ Hx), filter_app, filter_cons, filter_nil.
    case_decide as Hd.
    + assert (x = cb) as -> by congruence.
      rewrite IH by (rewrite length_delete by eauto; lia).
      rewrite decide_False by tauto.
      rewrite app_nil_r, delete_take_drop.
      assert (length (take i l) = i) as Hlen by (rewrite length_take; lia).
      rewrite take_app_length', drop_app_length' by done.
      done.
    + rewrite IH by lia.
      rewrite decide_True by congruence.
      rewrite <- app_assoc. simpl. by rewrite <- (drop_S _ _ _ Hx).
Qed.

Lemma unsubscribe_callbacks cb s :
  callbacks (unsubscribe cb s) = filter (fun x => x <> cb) (callbacks s).
Proof.
  unfold unsubscribe; simpl.
  rewrite unsubscribe_loop_spec by lia.
  by rewrite firstn_all, drop_all, app_nil_r.
Qed.

Lemma unsubscribe_absent cb s :
  cb ∉ callbacks s -> unsubscribe cb s = s.
Proof.
  intros Hnot. destruct s as [st cs]; simpl in *.
  unfold unsubscribe; simpl. f_equal.
  rewrite unsubscribe_loop_spec, firstn_all, drop_all, app_nil_r by lia.
  induction cs as [|c cs IH]; [done|].
  rewrite filter_cons. apply not_elem_of_cons in Hnot as [Hne Hnot].
  rewrite decide_True by congruence. by rewrite IH.
Qed.

(** *** Passive observers *)

Lemma exec_external rec (cs : list (cmd callback X)) w :
  Forall is_external cs ->
  exec rec cs w = Done (with_ext (ext_effect cs) w).
Proof.
  revert w. induction cs as [|c cs IH]; intros w Hcs.
  - by destruct w.
  - apply Forall_cons in Hcs as [Hc Hcs].
    destruct c; try done. simpl. by rewrite IH.
Qed.

Lemma invoke_passive rec cb next prev w :
  passive body cb ->
  invoke body rec cb next prev w = Done (after_round body [cb] next prev w).
Proof.
  intros Hp. unfold invoke. by rewrite exec_external.
Qed.

Lemma after_round_cons cb l next prev w :
  after_round body (cb :: l) next prev w
  = after_round body l next prev (after_round body [cb] next prev w).
Proof.
  unfold after_round; simpl. f_equal. by rewrite <- app_assoc.
Qed.

(** The loop walks a stretch of passive observers one by one. *)
Lemma notify_passive_stretch rec next prev l :
  forall done rest w k,
    callbacks (store w) = done ++ l ++ rest ->
    Forall (passive body) l ->
    notify body rec (length l + k) (length done) next prev w
    = notify body rec k (length done + length l) next prev
        (after_round body l next prev w).
Proof.
  induction l as [|cb l IH]; intros done rest w k Hcs Hl.
  - simpl. rewrite Nat.add_0_r. f_equal.
    destruct w; unfold after_round; simpl. by rewrite app_nil_r.
  - apply Forall_cons in Hl as [Hcb Hl].
    simpl. rewrite Hcs, lookup_app_r, Nat.sub_diag by lia. simpl.
    rewrite invoke_passive by done.
    specialize (IH (done ++ [cb]) rest (after_round body [cb] next prev w) k).
    rewrite length_app in IH. simpl in IH.
    replace (length done + S (length l))
      with (length done + 1 + length l) by lia.
    rewrite (after_round_cons cb l).
    replace (S (length done)) with (length done + 1) by lia.
    apply IH; [|done].
    simpl. by rewrite Hcs, <- app_assoc.
Qed.

Lemma notify_passive_run rec next prev l done rest w fuel i :
  callbacks (store w) = done ++ l ++ rest ->
  Forall (passive body) l ->
  i = length done ->
  length l <= fuel ->
  notify body rec fuel i next prev w
  = notify body rec (fuel - length l) (i + length l) next prev
      (after_round body l next prev w).
Proof.
  intros Hcs Hl -> Hfuel.
  replace fuel with (length l + (fuel - length l)) at 1 by lia.
  by eapply notify_passive_stretch.
Qed.

Lemma notify_end rec k next prev w :
  notify body rec k (length (callbacks (store w))) next prev w = Done w.
Proof.
  destruct k; simpl; by rewrite lookup_ge_None_2.
Qed.

Lemma notify_passive rec next prev w k :
  Forall (passive body) (callbacks (store w)) ->
  notify body rec (length (callbacks (store w)) + k) 0 next prev w
  = Done (after_round body (callbacks (store w)) next prev w).
Proof.
  intros Hp.
  pose proof (notify_passive_stretch rec next prev (callbacks (store w))
                [] [] w k) as Hrun.
  simpl in Hrun. rewrite Hrun by (by rewrite ?app_nil_r).
  apply (notify_end rec k next prev (after_round body _ next prev w)).
Qed.

Lemma setState_passive fuel update w :
  Forall (passive body) (callbacks (store w)) ->
  length (callbacks (store w)) < fuel ->
  setState apply_fn body fuel update w
  = Done (after_round body (callbacks (store w))
            (next_state apply_fn update (state (store w))) (state (store w))
            (assign (next_state apply_fn update (state (store w))) w)).
Proof.
  intros Hp Hfuel. destruct fuel as [|k]; [lia|]. simpl.
  replace k
    with (length (callbacks (store w)) + (k - length (callbacks (store w))))
    at 2 by lia.
  by rewrite (notify_passive _ _ _ (assign _ w)).
Qed.



(** C10, as the code has it. An argument of [setState] that is an instance
    of [Function] is always called as an updater, whatever the store holds
    (a function value included): what is stored is its result on the
    current state, not the argument as it stands.  Any other argument, a
    function that is not an instance of [Function] included, is stored as
    it stands.  The stored value is what the observers receive. *)
Theorem setState_function_argument_is_updater fuel update w :
  Forall (passive body) (callbacks (store w)) ->
  length (callbacks (store w)) < fuel ->
  exists w',
    setState apply_fn body fuel update w = Done w'
    /\ (forall f,
          update = VFun f ->
          getState (store w') = apply_fn f (getState (store w)))
    /\ (instance_of_Function update = false -> getState (store w') = update)
    /\ invoked w'
       = invoked w
         ++ calls (callbacks (store w))
              (getState (store w')) (getState (store w)).
Proof.
  intros Hp Hfuel.
  eexists. split; [by apply setState_passive|]. simpl. split_and!.
  - by intros f ->.
  - by destruct update.
  - done.
Qed.

(** *** Rounds after an unsubscription *)

Lemma setState_seq_passive fuel updates :
  forall w,
    Forall (passive body) (callbacks (store w)) ->
    length (callbacks (store w)) < fuel ->
    exists w' extra,
      setState_seq apply_fn body fuel updates w = Done w'
      /\ callbacks (store w') = callbacks (store w)
      /\ invoked w' = invoked w ++ extra
      /\ forall c, c ∈ extra -> fst (fst c) ∈ callbacks (store w).
Proof.
  induction updates as [|u us IH]; intros w Hp Hfuel.
  - exists w, []. rewrite app_nil_r. split_and!; try done.
    intros c Hc. by apply elem_of_nil in Hc.
  - simpl. rewrite setState_passive by done.
    set (w1 := after_round _ _ _ _ _).
    destruct (IH w1) as (w' & extra & Hrun & Hcs & Hinv & Hextra); [done..|].
    exists w', (calls (callbacks (store w)) (next_state apply_fn u (state (store w)))
                  (state (store w)) ++ extra).
    split_and!; try done.
    + rewrite Hinv. subst w1; simpl. by rewrite <- app_assoc.
    + intros c [Hc|Hc]%elem_of_app; [|by apply Hextra].
      unfold calls in Hc. apply list_elem_of_fmap in Hc as (cb & -> & Hcb).
      done.
Qed.

(** C3. With [cb] registered [k >= 1] times, the function returned by any
    [subscribe(cb)] removes all [k] entries equal to [cb] and nothing else,
    so that [setState] calls made afterwards never call [cb]; calling that
    function a second time changes nothing. *)
Theorem unsubscribe_removes_every_occurrence cb s :
  cb ∈ callbacks s ->
  let s' := unsubscribe cb s in
  callbacks s' = filter (fun x => x <> cb) (callbacks s)
  /\ (cb ∉ callbacks s')
  /\ length (callbacks s') < length (callbacks s)
  /\ getState s' = getState s
  /\ unsubscribe cb s' = s'
  /\ forall fuel updates x log,
       Forall (passive body) (callbacks s') ->
       length (callbacks s') < fuel ->
       exists w',
         setState_seq apply_fn body fuel updates (mkWorld s' x log) = Done w'
         /\ (cb ∉ invoked_since (length log) w').
Proof.
  intros Hin s'.
  assert (cb ∉ callbacks s') as Hgone.
  { subst s'. rewrite unsubscribe_callbacks.
    intros [Hne _]%list_elem_of_filter. done. }
  split_and!; try done.
  - apply unsubscribe_callbacks.
  - subst s'. rewrite unsubscribe_callbacks.
    apply (length_filter_lt _ _ cb); [done|]. tauto.
  - by apply unsubscribe_absent.
  - intros fuel updates x log Hp Hfuel.
    destruct (setState_seq_passive fuel updates (mkWorld s' x log))
      as (w' & extra & Hrun & _ & Hinv & Hextra); [done..|].
    exists w'. split; [done|].
    unfold invoked_since. rewrite Hinv. simpl. rewrite drop_app_length.
    intros (c & -> & Hc)%list_elem_of_fmap.
    apply Hgone. by apply Hextra.
Qed.

(** *** A throwing observer *)

Lemma exec_throw rec (quiet rest : list (cmd callback X)) e w :
  Forall is_external quiet ->
  exec rec (quiet ++ CThrow e :: rest) w
  = Thrown e (with_ext (ext_effect quiet) w).
Proof.
  revert w. induction quiet as [|c cs IH]; intros w Hq.
  - by destruct w.
  - apply Forall_cons in Hq as [Hc Hq].
    destruct c; try done. simpl. by rewrite IH.
Qed.

(** C4. When an observer throws, [setState] ends with that very exception:
    the observers after it in the round are not called, and the store keeps
    the next state, which was assigned before the round began. *)
Theorem setState_propagates_observer_exception
    fuel update w pre t post quiet rest e :
  let prevState := getState (store w) in
  let nextState := next_state apply_fn update prevState in
  callbacks (store w) = pre ++ t :: post ->
  Forall (passive body) pre ->
  body t nextState prevState = quiet ++ CThrow e :: rest ->
  Forall is_external quiet ->
  S (length pre) < fuel ->
  exists w',
    setState apply_fn body fuel update w = Thrown e w'
    /\ getState (store w') = nextState
    /\ callbacks (store w') = callbacks (store w)
    /\ invoked w' = invoked w ++ calls (pre ++ [t]) nextState prevState.
Proof.
  intros prevState nextState Hcs Hpre Hbody Hquiet Hfuel.
  destruct fuel as [|k]; [lia|]. simpl.
  fold prevState. fold nextState.
  rewrite (notify_passive_run _ nextState prevState pre [] (t :: post))
    by (done || lia).
  destruct (k - length pre) as [|k1] eqn:Hk; [lia|].
  simpl. rewrite Hcs, lookup_app_r, Nat.sub_diag by lia. simpl.
  unfold invoke. rewrite Hbody, exec_throw by done.
  eexists. split; [done|]. simpl. split_and!; try done.
  unfold calls. by rewrite fmap_app, <- app_assoc.
Qed.

(** *** Subscription changes during a round *)

Lemma notify_past_end rec k i next prev w :
  length (callbacks (store w)) <= i ->
  notify body rec k i next prev w = Done w.
Proof.
  intros Hi. destruct k; simpl; by rewrite lookup_ge_None_2.
Qed.

(** C1, as the code has it. The round walks the live [callbacks] array by
    index, not a copy of it. When one observer of the round subscribes [f]
    and the others leave the store alone, [f] is appended and called in
    that same round, last, with the same arguments; an observer that
    unsubscribes itself during the round has been called in that round. *)
Theorem notification_walks_the_live_array fuel update w pre a post f :
  let prevState := getState (store w) in
  let nextState := next_state apply_fn update prevState in
  callbacks (store w) = pre ++ a :: post ->
  Forall (passive body) pre ->
  Forall (passive body) post ->
  S (length (callbacks (store w))) < fuel ->
  (passive body f ->
   body a nextState prevState = [CSubscribe f] ->
   exists w',
     setState apply_fn body fuel update w = Done w'
     /\ callbacks (store w') = pre ++ a :: post ++ [f]
     /\ invoked w'
        = invoked w ++ calls (pre ++ a :: post ++ [f]) nextState prevState)
  /\ (body a nextState prevState = [CUnsubscribe a] ->
      exists w',
        setState apply_fn body fuel update w = Done w'
        /\ (a, nextState, prevState) ∈ drop (length (invoked w)) (invoked w')
        /\ (a ∉ callbacks (store w'))).
Proof.
  intros prevState nextState Hcs Hpre Hpost Hfuel.
  assert (length (callbacks (store w)) = length pre + S (length post))
    as Hlen by (rewrite Hcs, length_app; done).
  destruct fuel as [|k]; [lia|]. simpl.
  fold prevState. fold nextState.
  rewrite (notify_passive_run _ nextState prevState pre [] (a :: post))
    by (done || lia).
  destruct (k - length pre) as [|k1] eqn:Hk; [lia|].
  simpl. rewrite Hcs, lookup_app_r, Nat.sub_diag by lia. simpl.
  unfold invoke. split.
  - intros Hf ->. simpl.
    set (w1 := with_store (subscribe f) _).
    rewrite (notify_passive_run _ nextState prevState (post ++ [f])
               (pre ++ [a]) [] w1).
    + rewrite notify_past_end.
      * eexists. split; [done|]. simpl. rewrite Hcs.
        split; [by rewrite <- app_assoc|].
        unfold calls. rewrite !fmap_app, <- !app_assoc. simpl.
        by rewrite !fmap_app.
      * simpl. rewrite Hcs, !length_app. simpl. lia.
    + subst w1. simpl. rewrite Hcs, app_nil_r, <- !app_assoc. done.
    + apply Forall_app. split; [done|]. by apply Forall_singleton.
    + rewrite length_app. simpl. lia.
    + rewrite length_app. simpl. lia.
  - intros Hb. rewrite Hb. simpl.
    remember (with_store (unsubscribe a) _) as w1 eqn:Hw1.
    assert (~ passive body a) as Hnp.
    { intros Hp. specialize (Hp nextState prevState).
      rewrite Hb in Hp. apply Forall_inv in Hp. exact Hp. }
    assert (forall l, Forall (passive body) l ->
                      filter (fun x => x <> a) l = l) as Hkeep.
    { intros l Hl. induction Hl as [|x l Hx Hl IH]; [done|].
      rewrite filter_cons, decide_True, IH; [done|].
      intros ->. done. }
    assert (callbacks (store w1) = pre ++ post) as Hcs1.
    { rewrite Hw1. unfold with_store. cbn [store].
      rewrite unsubscribe_callbacks. simpl.
      rewrite Hcs, filter_app, filter_cons, decide_False by tauto.
      by rewrite !Hkeep. }
    assert (exists w',
               notify body (setState apply_fn body k) k1
                 (S (length pre)) nextState prevState w1 = Done w'
               /\ callbacks (store w') = pre ++ post
               /\ exists more, invoked w' = invoked w1 ++ more)
      as (w' & Hrun & Hcs' & more & Hinv).
    { destruct post as [|p post'].
      - exists w1. rewrite notify_past_end.
        + split_and!; try done. exists []. by rewrite app_nil_r.
        + rewrite Hcs1, app_nil_r. lia.
      - apply Forall_cons in Hpost as [Hp Hpost'].
        rewrite (notify_passive_run _ nextState prevState post'
                   (pre ++ [p]) [] w1).
        + rewrite notify_past_end.
          * eexists. split; [done|]. simpl. split; [done|]. eauto.
          * simpl. rewrite Hcs1, !length_app. simpl in *. lia.
        + rewrite Hcs1, app_nil_r, <- app_assoc. done.
        + done.
        + rewrite length_app. simpl. lia.
        + simpl in Hlen. lia. }
    exists w'. split; [done|]. split.
    + rewrite Hinv, Hw1. simpl.
      unfold calls. rewrite <- !app_assoc, drop_app_length.
      apply elem_of_app. right. apply elem_of_app. left.
      apply list_elem_of_singleton. done.
    + rewrite Hcs'. intros [Hin|Hin]%elem_of_app.
      * apply Hnp. by eapply Forall_forall in Hpre.
      * apply Hnp. by eapply Forall_forall in Hpost.
Qed.

End StoreFacts.

(** * Further properties of the store *)

Section StoreRounds.

Import StoreModel.

Context {callback : Type} `{EqDecision callback} {X : Type}.
Context (apply_fn : fnref -> value -> value).
Context (body : callback -> value -> value -> list (cmd callback X)).

Implicit Types (w : world callback X) (s : Store callback) (cb a b : callback).
Implicit Types (l pre post : list callback) (next prev : value).

(** *** Subscribing and unsubscribing *)

Lemma unsubscribe_eq cb s :
  unsubscribe cb s
  = {| state := state s;
       callbacks := filter (fun x => x <> cb) (callbacks s) |}.
Proof.
  pose proof (unsubscribe_callbacks apply_fn body cb s) as Hcs.
  unfold unsubscribe in *. simpl in *. by rewrite Hcs.
Qed.

Lemma filter_keeps_all (P : callback -> Prop) `{!forall x, Decision (P x)} l :
  Forall P l -> filter P l = l.
Proof.
  induction 1 as [|x l Hx Hl IH]; [done|].
  by rewrite filter_cons, decide_True, IH.
Qed.

Lemma filter_complement_length cb l :
  length (filter (fun x => x <> cb) l) + occurrences cb l = length l.
Proof.
  unfold occurrences. induction l as [|x l IH]; [done|].
  rewrite !filter_cons. destruct (decide (x = cb)) as [->|Hne].
  - rewrite decide_False by tauto. simpl. lia.
  - rewrite decide_True by done. simpl. lia.
Qed.

Lemma occurrences_app cb l1 l2 :
  occurrences cb (l1 ++ l2) = occurrences cb l1 + occurrences cb l2.
Proof. unfold occurrences. by rewrite filter_app, length_app. Qed.

Lemma occurrences_singleton cb x :
  occurrences cb [x] = if decide (x = cb) then 1 else 0.
Proof. unfold occurrences. rewrite filter_cons. by case_decide. Qed.

Lemma occurrences_passive a l :
  ~ passive body a -> Forall (passive body) l -> occurrences a l = 0.
Proof.
  intros Hnp Hl. pose proof (filter_complement_length a l) as Hc.
  rewrite filter_keeps_all in Hc; [lia|].
  eapply Forall_impl; [exact Hl|]. intros x Hx ->. done.
Qed.

(** Subscribing [cb] and then calling the returned function undoes the
    subscription, and every earlier subscription of [cb] with it: the store
    is what unsubscribing [cb] alone would have left, and is unchanged when
    [cb] was not registered before. *)
Theorem subscribe_then_unsubscribe cb s :
  unsubscribe cb (subscribe cb s) = unsubscribe cb s
  /\ (cb ∉ callbacks s -> unsubscribe cb (subscribe cb s) = s).
Proof.
  assert (unsubscribe cb (subscribe cb s) = unsubscribe cb s) as Heq.
  { rewrite !unsubscribe_eq. simpl. f_equal.
    rewrite filter_app, filter_cons, decide_False, filter_nil by tauto.
    by rewrite app_nil_r. }
  split; [done|]. intros Hnot. rewrite Heq.
  by apply (unsubscribe_absent apply_fn body).
Qed.

(** Unsubscribing two callbacks gives the same store in either order, and
    the state is not touched. *)
Theorem unsubscribe_commutes a b s :
  unsubscribe a (unsubscribe b s) = unsubscribe b (unsubscribe a s)
  /\ getState (unsubscribe a (unsubscribe b s)) = getState s.
Proof.
  rewrite !unsubscribe_eq. simpl. split; [|done]. f_equal.
  rewrite !list_filter_filter. apply list_filter_iff. tauto.
Qed.

(** *** Several updates in a row *)

Lemma length_concat_replicate (n : nat) l :
  length (concat (replicate n l)) = n * length l.
Proof.
  induction n as [|n IH]; [done|].
  simpl. by rewrite length_app, IH.
Qed.

Lemma seq_calls_observers l updates :
  forall current,
    map (fun c => fst (fst c)) (seq_calls apply_fn l updates current)
    = concat (replicate (length updates) l).
Proof.
  induction updates as [|u us IH]; intros current; [done|].
  simpl. rewrite map_app, IH. f_equal.
  unfold calls. rewrite map_map. simpl. apply map_id.
Qed.

(** With observers that leave the store alone, a series of [setState]
    calls leaves the fold of the updates as the state, each update applied
    to the state the one before left, and runs one round per update over
    the same observers: every observer is called once per update, in
    registration order, with the state that update gave and the state it
    found. *)
Theorem setState_seq_composes fuel updates :
  forall w,
    Forall (passive body) (callbacks (store w)) ->
    length (callbacks (store w)) < fuel ->
    exists w',
      setState_seq apply_fn body fuel updates w = Done w'
      /\ getState (store w')
         = fold_updates apply_fn updates (getState (store w))
      /\ callbacks (store w') = callbacks (store w)
      /\ invoked w'
         = invoked w
           ++ seq_calls apply_fn (callbacks (store w)) updates
                (getState (store w))
      /\ invoked_since (length (invoked w)) w'
         = concat (replicate (length updates) (callbacks (store w)))
      /\ length (invoked w')
         = length (invoked w)
           + length updates * length (callbacks (store w)).
Proof.
  assert (forall w,
            Forall (passive body) (callbacks (store w)) ->
            length (callbacks (store w)) < fuel ->
            exists w',
              setState_seq apply_fn body fuel updates w = Done w'
              /\ getState (store w')
                 = fold_updates apply_fn updates (getState (store w))
              /\ callbacks (store w') = callbacks (store w)
              /\ invoked w'
                 = invoked w
                   ++ seq_calls apply_fn (callbacks (store w)) updates
                        (getState (store w))) as Hlog.
  { induction updates as [|u us IH]; intros w Hp Hfuel.
    - exists w. split_and!; try done. simpl. by rewrite app_nil_r.
    - simpl. rewrite setState_passive by done.
      set (w1 := after_round _ _ _ _ _).
      destruct (IH w1) as (w' & Hrun & Hst & Hcs & Hinv); [done..|].
      exists w'. split_and!; try done.
      rewrite Hinv. subst w1. simpl. by rewrite <- app_assoc. }
  intros w Hp Hfuel.
  destruct (Hlog w Hp Hfuel) as (w' & Hrun & Hst & Hcs & Hinv).
  assert (invoked_since (length (invoked w)) w'
          = concat (replicate (length updates) (callbacks (store w))))
    as Hobs.
  { unfold invoked_since. rewrite Hinv, drop_app_length.
    apply seq_calls_observers. }
  exists w'. split_and!; try done.
  apply (f_equal length) in Hobs.
  unfold invoked_since in Hobs. rewrite length_map, length_drop in Hobs.
  assert (length (invoked w) <= length (invoked w'))
    by (rewrite Hinv, length_app; lia).
  rewrite length_concat_replicate in Hobs. lia.
Qed.

(** *** Unsubscribing while a round is running *)

Lemma passive_filter (P : callback -> Prop) `{!forall x, Decision (P x)} l :
  Forall (passive body) l -> Forall (passive body) (filter P l).
Proof.
  intros Hl. apply Forall_forall. intros x [_ Hx]%list_elem_of_filter.
  by eapply Forall_forall in Hl.
Qed.

(** The round of an observer [a] whose body calls the unsubscribe function
    of [b]: the entries equal to [b] leave the array, the index of the loop
    stays where it was, and the loop goes on in what is left. *)
Lemma round_with_unsubscriber fuel update w pre a post b :
  let prevState := getState (store w) in
  let nextState := next_state apply_fn update prevState in
  callbacks (store w) = pre ++ a :: post ->
  Forall (passive body) pre ->
  Forall (passive body) post ->
  body a nextState prevState = [CUnsubscribe b] ->
  S (length (callbacks (store w))) < fuel ->
  exists w',
    setState apply_fn body fuel update w = Done w'
    /\ getState (store w') = nextState
    /\ callbacks (store w') = filter (fun x => x <> b) (pre ++ a :: post)
    /\ invoked w'
       = invoked w
         ++ calls (pre ++ a :: drop (occurrences b (pre ++ [a]))
                                (filter (fun x => x <> b) post))
              nextState prevState.
Proof.
  intros prevState nextState Hcs Hpre Hpost Hb Hfuel.
  assert (length (callbacks (store w)) = length pre + S (length post))
    as Hlen by (rewrite Hcs, length_app; done).
  destruct fuel as [|k]; [lia|]. simpl.
  fold prevState. fold nextState.
  rewrite (notify_passive_run _ _ nextState prevState pre [] (a :: post))
    by (done || lia).
  destruct (k - length pre) as [|k1] eqn:Hk; [lia|].
  simpl. rewrite Hcs, lookup_app_r, Nat.sub_diag by lia. simpl.
  unfold invoke. rewrite Hb. simpl.
  remember (with_store (unsubscribe b) _) as w1 eqn:Hw1.
  set (G := filter (fun x => x <> b) (pre ++ [a])).
  set (F := filter (fun x => x <> b) post).
  set (m := occurrences b (pre ++ [a])).
  assert (callbacks (store w1) = G ++ F) as Hcs1.
  { rewrite Hw1. unfold with_store. cbn [store].
    rewrite (unsubscribe_callbacks apply_fn body). simpl.
    rewrite Hcs. subst G F.
    by rewrite (cons_middle a pre post), app_assoc, filter_app. }
  assert (length G + m = S (length pre)) as HG.
  { subst G m. rewrite filter_complement_length, length_app. simpl. lia. }
  assert (length F <= length post) as HF by apply length_filter.
  assert (state (store w1) = nextState /\
          invoked w1 = invoked w ++ calls (pre ++ [a]) nextState prevState)
    as [Hst1 Hinv1].
  { rewrite Hw1. simpl. split; [done|].
    unfold calls. by rewrite fmap_app, <- app_assoc. }
  assert (filter (fun x => x <> b) (pre ++ a :: post) = G ++ F) as Hall.
  { subst G F. by rewrite (cons_middle a pre post), app_assoc, filter_app. }
  rewrite Hall.
  destruct (decide (m <= length F)) as [Hm|Hm].
  - rewrite (notify_passive_run _ _ nextState prevState (drop m F)
               (G ++ take m F) [] w1).
    + rewrite notify_past_end.
      * eexists. split; [done|]. unfold getState. simpl.
        rewrite Hst1, Hcs1, Hinv1.
        split_and!; try done.
        unfold calls. rewrite !fmap_app, <- !app_assoc. simpl. done.
      * simpl. rewrite Hcs1, length_app, length_drop. lia.
    + rewrite Hcs1, app_nil_r, <- app_assoc, take_drop. done.
    + apply Forall_drop. by apply passive_filter.
    + rewrite length_app, length_take. lia.
    + rewrite length_drop. lia.
  - rewrite notify_past_end by (rewrite Hcs1, length_app; lia).
    eexists. split; [done|]. unfold getState. rewrite Hst1, Hcs1, Hinv1.
    split_and!; try done.
    by rewrite drop_ge by lia.
Qed.

(** An observer that unsubscribes itself during a round makes the loop
    pass over the observer registered right after it: that one is not
    called in this round, the ones after it are. *)
Theorem self_unsubscribe_skips_next_observer
    fuel update w pre a skipped post :
  let prevState := getState (store w) in
  let nextState := next_state apply_fn update prevState in
  callbacks (store w) = pre ++ a :: skipped :: post ->
  Forall (passive body) pre ->
  Forall (passive body) (skipped :: post) ->
  body a nextState prevState = [CUnsubscribe a] ->
  S (length (callbacks (store w))) < fuel ->
  exists w',
    setState apply_fn body fuel update w = Done w'
    /\ callbacks (store w') = pre ++ skipped :: post
    /\ invoked w' = invoked w ++ calls (pre ++ a :: post) nextState prevState.
Proof.
  intros prevState nextState Hcs Hpre Hpost Hb Hfuel.
  destruct (round_with_unsubscriber fuel update w pre a (skipped :: post) a
              Hcs Hpre Hpost Hb Hfuel) as (w' & Hrun & _ & Hcs' & Hinv).
  assert (~ passive body a) as Hnp.
  { intros Hp. specialize (Hp nextState prevState).
    fold prevState nextState in Hb.
    rewrite Hb in Hp. apply Forall_inv in Hp. exact Hp. }
  assert (forall l, Forall (passive body) l ->
                    filter (fun x => x <> a) l = l) as Hkeep.
  { intros l Hl. apply filter_keeps_all.
    eapply Forall_impl; [exact Hl|]. intros x Hx ->. done. }
  exists w'. split; [done|]. split.
  - rewrite Hcs', filter_app, filter_cons, decide_False by tauto.
    by rewrite !Hkeep.
  - rewrite Hinv, occurrences_app, occurrences_singleton.
    rewrite (occurrences_passive a pre), decide_True by done.
    by rewrite Hkeep.
Qed.

(** An observer that, during a round, unsubscribes a callback [b] (other
    than itself) makes the loop lose its place by the number [m] of entries
    of [b] already passed: [b] is not called again in this round, and
    neither are the [m] observers that come next; the store keeps the
    other observers in their order. *)
Theorem unsubscribe_during_round fuel update w pre a post b :
  let prevState := getState (store w) in
  let nextState := next_state apply_fn update prevState in
  callbacks (store w) = pre ++ a :: post ->
  Forall (passive body) pre ->
  Forall (passive body) post ->
  body a nextState prevState = [CUnsubscribe b] ->
  a <> b ->
  S (length (callbacks (store w))) < fuel ->
  exists w',
    setState apply_fn body fuel update w = Done w'
    /\ callbacks (store w') = filter (fun x => x <> b) (pre ++ a :: post)
    /\ invoked w'
       = invoked w
         ++ calls (pre ++ a :: drop (occurrences b pre)
                                (filter (fun x => x <> b) post))
              nextState prevState
    /\ (b ∉ pre ->
        invoked w'
        = invoked w
          ++ calls (pre ++ a :: filter (fun x => x <> b) post)
               nextState prevState).
Proof.
  intros prevState nextState Hcs Hpre Hpost Hb Hne Hfuel.
  destruct (round_with_unsubscriber fuel update w pre a post b
              Hcs Hpre Hpost Hb Hfuel) as (w' & Hrun & _ & Hcs' & Hinv).
  assert (occurrences b (pre ++ [a]) = occurrences b pre) as Hocc.
  { rewrite occurrences_app, occurrences_singleton, decide_False by done.
    lia. }
  rewrite Hocc in Hinv.
  exists w'. split_and!; try done.
  intros Hnot. rewrite Hinv.
  assert (occurrences b pre = 0) as ->; [|done].
  pose proof (filter_complement_length b pre) as Hc.
  rewrite filter_keeps_all in Hc; [lia|].
  apply Forall_forall. intros x Hx ->. done.
Qed.

(** *** Re-entrant calls *)

Lemma exec_app_external rec (quiet cs : list (cmd callback X)) w :
  Forall is_external quiet ->
  exec rec (quiet ++ cs) w = exec rec cs (with_ext (ext_effect quiet) w).
Proof.
  revert w. induction quiet as [|c quiet IH]; intros w Hq.
  - by destruct w.
  - apply Forall_cons in Hq as [Hc Hq].
    destruct c; try done. simpl. by rewrite IH.
Qed.

Lemma invoke_quiet rec cb next prev w :
  quiet_at body next prev cb ->
  invoke body rec cb next prev w = Done (after_round body [cb] next prev w).
Proof.
  intros Hq. unfold invoke. by rewrite exec_external.
Qed.

Lemma notify_quiet_run rec next prev l :
  forall done rest w fuel i,
    callbacks (store w) = done ++ l ++ rest ->
    Forall (quiet_at body next prev) l ->
    i = length done ->
    length l <= fuel ->
    notify body rec fuel i next prev w
    = notify body rec (fuel - length l) (i + length l) next prev
        (after_round body l next prev w).
Proof.
  induction l as [|cb l IH]; intros done rest w fuel i Hcs Hl -> Hfuel.
  - simpl. rewrite Nat.add_0_r, Nat.sub_0_r. f_equal.
    destruct w; unfold after_round; simpl. by rewrite app_nil_r.
  - apply Forall_cons in Hl as [Hcb Hl]. simpl in Hfuel.
    destruct fuel as [|k]; [lia|].
    simpl. rewrite Hcs, lookup_app_r, Nat.sub_diag by lia. simpl.
    rewrite invoke_quiet by done.
    rewrite (IH (done ++ [cb]) rest (after_round body [cb] next prev w) k
               (S (length done))).
    + rewrite (after_round_cons body cb l). f_equal. lia.
    + simpl. by rewrite Hcs, <- app_assoc.
    + done.
    + rewrite length_app. simpl. lia.
    + lia.
Qed.

Lemma setState_quiet fuel update w :
  Forall (quiet_at body (next_state apply_fn update (state (store w)))
            (state (store w)))
    (callbacks (store w)) ->
  length (callbacks (store w)) < fuel ->
  setState apply_fn body fuel update w
  = Done (after_round body (callbacks (store w))
            (next_state apply_fn update (state (store w))) (state (store w))
            (assign (next_state apply_fn update (state (store w))) w)).
Proof.
  intros Hq Hfuel. destruct fuel as [|k]; [lia|]. simpl.
  rewrite (notify_quiet_run _ _ _ (callbacks (store w)) [] []
             (assign _ w) k 0); try done.
  - simpl. by rewrite notify_past_end.
  - simpl. by rewrite app_nil_r.
  - lia.
Qed.

(** An observer that calls [setState] during a round starts a second round
    at once, which runs to its end over all the observers before the first
    one goes on: the observers after it in the first round are then called
    with the next state of the first round, which the store no longer
    holds. *)
Theorem reentrant_setState_runs_nested_round
    fuel update inner_update w pre a post :
  let prevState := getState (store w) in
  let nextState := next_state apply_fn update prevState in
  let innerState := next_state apply_fn inner_update nextState in
  callbacks (store w) = pre ++ a :: post ->
  Forall (passive body) pre ->
  Forall (passive body) post ->
  body a nextState prevState = [CSetState inner_update] ->
  quiet_at body innerState nextState a ->
  S (length (callbacks (store w))) < fuel ->
  exists w',
    setState apply_fn body fuel update w = Done w'
    /\ getState (store w') = innerState
    /\ callbacks (store w') = callbacks (store w)
    /\ invoked w'
       = invoked w
         ++ calls (pre ++ [a]) nextState prevState
         ++ calls (pre ++ a :: post) innerState nextState
         ++ calls post nextState prevState.
Proof.
  intros prevState nextState innerState Hcs Hpre Hpost Hb Hquiet Hfuel.
  assert (length (callbacks (store w)) = length pre + S (length post))
    as Hlen by (rewrite Hcs, length_app; done).
  destruct fuel as [|k]; [lia|]. simpl.
  fold prevState. fold nextState.
  rewrite (notify_passive_run _ _ nextState prevState pre [] (a :: post))
    by (done || lia).
  destruct (k - length pre) as [|k1] eqn:Hk; [lia|].
  simpl. rewrite Hcs, lookup_app_r, Nat.sub_diag by lia. simpl.
  unfold invoke. rewrite Hb. simpl.
  remember (record_call a nextState prevState _) as wa eqn:Hwa.
  assert (store wa = {| state := nextState; callbacks := pre ++ a :: post |}
          /\ invoked wa
             = invoked w ++ calls (pre ++ [a]) nextState prevState)
    as [Hsa Hia].
  { rewrite Hwa. simpl. rewrite Hcs. split; [done|].
    unfold calls. by rewrite fmap_app, <- app_assoc. }
  rewrite setState_quiet; rewrite ?Hsa; simpl.
  - fold innerState.
    remember (after_round body (pre ++ a :: post) innerState nextState _)
      as wn eqn:Hwn.
    assert (store wn = {| state := innerState;
                          callbacks := pre ++ a :: post |}
            /\ invoked wn
               = invoked w ++ calls (pre ++ [a]) nextState prevState
                 ++ calls (pre ++ a :: post) innerState nextState)
      as [Hsn Hin].
    { rewrite Hwn. simpl. rewrite Hsa, Hia. simpl.
      split; [done|]. by rewrite <- app_assoc. }
    rewrite (notify_passive_run _ _ nextState prevState post
               (pre ++ [a]) [] wn).
    + rewrite notify_past_end.
      * eexists. split; [done|]. unfold getState. simpl.
        rewrite Hsn, Hin. simpl. split_and!; try done.
        by rewrite <- !app_assoc.
      * simpl. rewrite Hsn. simpl. rewrite !length_app. simpl. lia.
    + rewrite Hsn. simpl. by rewrite app_nil_r, <- app_assoc.
    + done.
    + rewrite length_app. simpl. lia.
    + lia.
  - apply Forall_app. split.
    + eapply Forall_impl; [exact Hpre|]. intros x Hx. apply Hx.
    + apply Forall_cons. split; [exact Hquiet|].
      eapply Forall_impl; [exact Hpost|]. intros x Hx. apply Hx.
  - rewrite length_app. simpl. lia.
Qed.

(** *** Rounds that never end *)

Lemma elem_of_drop_lookup a l i :
  a ∈ drop i l ->
  exists cb, l !! i = Some cb /\ (cb = a \/ a ∈ drop (S i) l).
Proof.
  intros Hin. destruct (l !! i) as [cb|] eqn:Hi.
  - exists cb. split; [done|].
    rewrite (drop_S _ _ _ Hi) in Hin.
    apply elem_of_cons in Hin as [->|Hin]; auto.
  - apply lookup_ge_None in Hi. rewrite drop_ge in Hin by done.
    by apply elem_of_nil in Hin.
Qed.

(** An observer that calls [setState] whenever it is called makes every
    [setState] on the store recurse without end: no amount of fuel lets
    the call return. *)
Theorem unconditional_reentry_never_returns a w :
  (forall next prev,
      exists quiet u rest,
        body a next prev = quiet ++ CSetState u :: rest
        /\ Forall is_external quiet) ->
  a ∈ callbacks (store w) ->
  Forall (fun cb => passive body cb \/ cb = a) (callbacks (store w)) ->
  forall fuel update, setState apply_fn body fuel update w = OutOfFuel.
Proof.
  intros Hbody Hin Hall fuel. revert w Hin Hall.
  assert (~ passive body a) as Hnp.
  { intros Hp. specialize (Hp VUndefined VUndefined).
    destruct (Hbody VUndefined VUndefined) as (q & u & rest & Hb & _).
    rewrite Hb in Hp. apply Forall_app in Hp as [_ Hp].
    apply Forall_inv in Hp. exact Hp. }
  induction fuel as [|k IHk]; intros w Hin Hall update; [done|].
  simpl.
  set (next := next_state apply_fn update (state (store w))).
  set (prev := state (store w)).
  assert (forall m i w',
             a ∈ drop i (callbacks (store w')) ->
             Forall (fun cb => passive body cb \/ cb = a)
               (callbacks (store w')) ->
             notify body (setState apply_fn body k) m i next prev w'
             = OutOfFuel) as Hloop.
  { induction m as [|m IHm]; intros i w' Hin' Hall'.
    - destruct (elem_of_drop_lookup _ _ _ Hin') as (cb & Hcb & _).
      simpl. by rewrite Hcb.
    - destruct (elem_of_drop_lookup _ _ _ Hin') as (cb & Hcb & Hnext).
      simpl. rewrite Hcb.
      destruct (decide (cb = a)) as [->|Hne].
      + unfold invoke.
        destruct (Hbody next prev) as (q & u & rest & -> & Hq).
        rewrite exec_app_external by done. simpl.
        rewrite IHk; [done|simpl..].
        * eapply list_elem_of_lookup_2. exact Hcb.
        * exact Hall'.
      + assert (passive body cb) as Hp.
        { eapply Forall_forall in Hall'; [|by eapply list_elem_of_lookup_2].
          by destruct Hall'. }
        rewrite invoke_passive by done.
        apply IHm; simpl; [|done].
        by destruct Hnext. }
  apply Hloop; simpl; [|done]. by rewrite drop_0.
Qed.

(** An observer that subscribes itself whenever it is called makes the
    array grow as fast as the loop walks it: the round never ends, and the
    [setState] call never returns. *)
Theorem self_subscribing_observer_never_ends a w :
  (forall next prev,
      exists quiet rest,
        body a next prev = quiet ++ CSubscribe a :: rest
        /\ Forall is_external quiet /\ Forall is_external rest) ->
  a ∈ callbacks (store w) ->
  Forall (fun cb => passive body cb \/ cb = a) (callbacks (store w)) ->
  forall fuel update, setState apply_fn body fuel update w = OutOfFuel.
Proof.
  intros Hbody Hin Hall fuel update.
  assert (forall rec next prev m i w',
             a ∈ drop i (callbacks (store w')) ->
             Forall (fun cb => passive body cb \/ cb = a)
               (callbacks (store w')) ->
             notify body rec m i next prev w' = OutOfFuel) as Hloop.
  { intros rec next prev. induction m as [|m IHm]; intros i w' Hin' Hall'.
    - destruct (elem_of_drop_lookup _ _ _ Hin') as (cb & Hcb & _).
      simpl. by rewrite Hcb.
    - destruct (elem_of_drop_lookup _ _ _ Hin') as (cb & Hcb & Hnext).
      simpl. rewrite Hcb.
      destruct (decide (cb = a)) as [->|Hne].
      + unfold invoke.
        destruct (Hbody next prev) as (q & rest & -> & Hq & Hrest).
        rewrite exec_app_external by done. simpl.
        rewrite exec_external by done.
        apply IHm; simpl.
        * rewrite drop_app_le; [apply elem_of_app; right;
                                by apply list_elem_of_singleton|].
          apply lookup_lt_Some in Hcb. lia.
        * apply Forall_app. split; [done|].
          apply Forall_singleton. by right.
      + assert (passive body cb) as Hp.
        { eapply Forall_forall in Hall'; [|by eapply list_elem_of_lookup_2].
          by destruct Hall'. }
        rewrite invoke_passive by done.
        apply IHm; simpl; [|done].
        by destruct Hnext. }
  destruct fuel as [|k]; [done|]. simpl.
  apply Hloop; simpl; [|done]. by rewrite drop_0.
Qed.

End StoreRounds.

Section StoreRoundsExamples.

Import StoreModel Scenario.

Ltac solve_quiet :=
  repeat first
    [ exact I
    | apply Forall_nil_2
    | apply Forall_cons_2
    | progress unfold passive
    | (intros ? ?; simpl) ].

Lemma subscribe_then_unsubscribe_witness :
  unsubscribe B (subscribe B (mkStore (VNum 10) [A]))
  = mkStore (VNum 10) [A].
Proof.
  apply (subscribe_then_unsubscribe apply_fn body B (mkStore (VNum 10) [A])).
  simpl. intros Hin. apply list_elem_of_singleton in Hin. discriminate.
Defined.

Lemma setState_seq_composes_witness :
  exists w',
    setState_seq apply_fn body 3 [VNum 2; VFun 0; VNum (-25)]
      (world_of tests_store) = Done w'
    /\ getState (store w') = VNum (-25)
    /\ callbacks (store w') = [A; B]
    /\ invoked w'
       = [(A, VNum 2, VNum 10); (B, VNum 2, VNum 10);
          (A, VNum 3, VNum 2); (B, VNum 3, VNum 2);
          (A, VNum (-25), VNum 3); (B, VNum (-25), VNum 3)]
    /\ invoked_since 0 w' = [A; B; A; B; A; B].
Proof.
  destruct (setState_seq_composes apply_fn body 3
              [VNum 2; VFun 0; VNum (-25)] (world_of tests_store))
    as (w' & Hrun & Hst & Hcs & Hinv & Hobs & _).
  - solve_quiet.
  - simpl. lia.
  - exists w'. split; [exact Hrun|]. split; [exact Hst|].
    split; [exact Hcs|]. split; [exact Hinv|exact Hobs].
Defined.

Lemma self_unsubscribe_skips_next_observer_witness :
  exists w',
    setState apply_fn body 6 (VNum 2)
      (world_of (mkStore (VNum 10) [A; leaver; B; A])) = Done w'
    /\ callbacks (store w') = [A; B; A]
    /\ invoked w'
       = [(A, VNum 2, VNum 10); (leaver, VNum 2, VNum 10);
          (A, VNum 2, VNum 10)].
Proof.
  apply (self_unsubscribe_skips_next_observer apply_fn body 6 (VNum 2)
           (world_of (mkStore (VNum 10) [A; leaver; B; A]))
           [A] leaver B [A]);
    first [ reflexivity | (simpl; lia) | solve_quiet ].
Defined.

Lemma unsubscribe_during_round_witness :
  exists w',
    setState apply_fn ScenarioRounds.body 6 (VNum 2)
      (world_of (mkStore (VNum 10) [B; ScenarioRounds.remover; A; A]))
    = Done w'
    /\ callbacks (store w') = [ScenarioRounds.remover; A; A]
    /\ invoked w'
       = [(B, VNum 2, VNum 10); (ScenarioRounds.remover, VNum 2, VNum 10);
          (A, VNum 2, VNum 10)].
Proof.
  destruct (unsubscribe_during_round apply_fn ScenarioRounds.body 6 (VNum 2)
              (world_of (mkStore (VNum 10) [B; ScenarioRounds.remover; A; A]))
              [B] ScenarioRounds.remover [A; A] B)
    as (w' & Hrun & Hcs & Hinv & _);
    try first [ reflexivity | discriminate | (simpl; lia) | solve_quiet ].
  exists w'. split; [exact Hrun|]. split; [exact Hcs|exact Hinv].
Defined.

Lemma reentrant_setState_runs_nested_round_witness :
  exists w',
    setState apply_fn ScenarioRounds.body 6 (VNum 2)
      (world_of (mkStore (VNum 10) [A; ScenarioRounds.nester; B])) = Done w'
    /\ getState (store w') = VNum 3
    /\ callbacks (store w') = [A; ScenarioRounds.nester; B]
    /\ invoked w'
       = [(A, VNum 2, VNum 10); (ScenarioRounds.nester, VNum 2, VNum 10);
          (A, VNum 3, VNum 2); (ScenarioRounds.nester, VNum 3, VNum 2);
          (B, VNum 3, VNum 2); (B, VNum 2, VNum 10)].
Proof.
  apply (reentrant_setState_runs_nested_round apply_fn ScenarioRounds.body
           6 (VNum 2) (VNum 3)
           (world_of (mkStore (VNum 10) [A; ScenarioRounds.nester; B]))
           [A] ScenarioRounds.nester [B]);
    first [ reflexivity | (simpl; lia) | solve_quiet
          | apply Forall_nil_2 ].
Defined.

Lemma unconditional_reentry_never_returns_witness :
  setState apply_fn ScenarioRounds.body 50 (VNum 2)
    (world_of (mkStore (VNum 10) [A; ScenarioRounds.looper; B]))
  = OutOfFuel.
Proof.
  apply (unconditional_reentry_never_returns apply_fn ScenarioRounds.body
           ScenarioRounds.looper
           (world_of (mkStore (VNum 10) [A; ScenarioRounds.looper; B]))).
  - intros next prev. exists [], (VNum 0), []. split; [reflexivity|].
    apply Forall_nil_2.
  - apply list_elem_of_further, list_elem_of_here.
  - repeat first
      [ apply Forall_nil_2
      | apply Forall_cons_2
      | (right; reflexivity)
      | (left; solve_quiet) ].
Defined.

Lemma self_subscribing_observer_never_ends_witness :
  setState apply_fn ScenarioRounds.body 50 (VNum 2)
    (world_of (mkStore (VNum 10) [A; ScenarioRounds.grower; B]))
  = OutOfFuel.
Proof.
  apply (self_subscribing_observer_never_ends apply_fn ScenarioRounds.body
           ScenarioRounds.grower
           (world_of (mkStore (VNum 10) [A; ScenarioRounds.grower; B]))).
  - intros next prev. exists [], []. split; [reflexivity|].
    split; apply Forall_nil_2.
  - apply list_elem_of_further, list_elem_of_here.
  - repeat first
      [ apply Forall_nil_2
      | apply Forall_cons_2
      | (right; reflexivity)
      | (left; solve_quiet) ].
Defined.

End StoreRoundsExamples.

(** ** The statements on the observers of the examples *)

Section StoreExamples.

Import StoreModel Scenario.

Ltac solve_passive :=
  repeat first
    [ exact I
    | apply Forall_nil_2
    | apply Forall_cons_2
    | progress unfold passive
    | (intros ? ?; simpl) ].

(** tests.ts, line by line. *)
Example tests_ts :
  getState tests_store = VNum 10
  /\ length (callbacks tests_store) = 2
  /\ exists w1 w2 w3,
      setState apply_fn body 3 (VNum 2) (world_of tests_store) = Done w1
      /\ getState (store w1) = VNum 2 /\ ext w1 = (102, -6)%Z
      /\ setState apply_fn body 3 (VNum (-25)) w1 = Done w2
      /\ getState (store w2) = VNum (-25) /\ ext w2 = (77, 150)%Z
      /\ length (callbacks (unsubscribe B (store w2))) = 1
      /\ setState apply_fn body 3 (VNum 12)
           (with_store (unsubscribe B) w2) = Done w3
      /\ getState (store w3) = VNum 12 /\ ext w3 = (89, 150)%Z.
Proof.
  split; [reflexivity|]. split; [reflexivity|].
  do 3 eexists. repeat split; reflexivity.
Qed.



(** A store whose state is itself a function: the argument [VFun 8] is
    called, and its result [VFun 9] is what the store then holds. *)
Lemma setState_function_argument_is_updater_witness :
  exists w',
    setState apply_fn body 3 (VFun 8) (world_of (mkStore (VFun 7) [A])) = Done w'
    /\ getState (store w') = VFun 9
    /\ invoked w' = [(A, VFun 9, VFun 7)].
Proof.
  destruct (setState_function_argument_is_updater apply_fn body 3 (VFun 8)
              (world_of (mkStore (VFun 7) [A])))
    as (w' & Hrun & Hupd & _ & Hinv).
  - solve_passive.
  - simpl. lia.
  - exists w'. split; [exact Hrun|].
    pose proof (Hupd 8 eq_refl) as Hst. simpl in Hst.
    split; [exact Hst|]. rewrite Hinv, Hst. reflexivity.
Defined.

(** C10, as the spec has it, fails: the argument [VForeignFun 8] is a
    function value, and [setState] stores it as it stands instead of
    calling it. *)
Lemma function_not_instance_of_Function_is_stored :
  let w := world_of (mkStore (VNum 10) [A]) in
  callable (VForeignFun 8) = true
  /\ exists w',
      setState apply_fn body 3 (VForeignFun 8) w = Done w'
      /\ getState (store w') = VForeignFun 8
      /\ getState (store w') <> apply_fn 8 (getState (store w))
      /\ invoked w' = [(A, VForeignFun 8, VNum 10)].
Proof.
  simpl. split; [reflexivity|]. eexists. split; [reflexivity|].
  split; [reflexivity|]. split; [discriminate|reflexivity].
Qed.

Lemma unsubscribe_removes_every_occurrence_witness :
  A ∈ [A; B; A]
  /\ callbacks (unsubscribe A (mkStore (VNum 10) [A; B; A])) = [B]
  /\ exists w',
      setState_seq apply_fn body 3 [VNum 1; VNum 2]
        (world_of (unsubscribe A (mkStore (VNum 10) [A; B; A]))) = Done w'
      /\ (A ∉ invoked_since 0 w').
Proof.
  assert (A ∈ callbacks (mkStore (VNum 10) [A; B; A])) as Hin
    by apply list_elem_of_here.
  split; [exact Hin|].
  destruct (unsubscribe_removes_every_occurrence apply_fn body A
              (mkStore (VNum 10) [A; B; A]) Hin)
    as (Hcs & _ & _ & _ & _ & Hlater).
  split; [exact Hcs|].
  apply (Hlater 3 [VNum 1; VNum 2] (100, -3)%Z []).
  - solve_passive.
  - simpl. lia.
Defined.

Lemma setState_propagates_observer_exception_witness :
  exists w',
    setState apply_fn body 3 (VNum 2)
      (world_of (mkStore (VNum 10) [A; thrower; B])) = Thrown (Error "boom") w'
    /\ getState (store w') = VNum 2
    /\ callbacks (store w') = [A; thrower; B]
    /\ invoked w' = [(A, VNum 2, VNum 10); (thrower, VNum 2, VNum 10)].
Proof.
  apply (setState_propagates_observer_exception apply_fn body 3 (VNum 2)
           (world_of (mkStore (VNum 10) [A; thrower; B]))
           [A] thrower [B] [] [] (Error "boom")).
  - reflexivity.
  - solve_passive.
  - reflexivity.
  - solve_passive.
  - simpl. lia.
Defined.

Lemma notification_walks_the_live_array_witness :
  (exists w',
      setState apply_fn body 5 (VNum 2)
        (world_of (mkStore (VNum 10) [A; registrar; B])) = Done w'
      /\ callbacks (store w') = [A; registrar; B; late]
      /\ invoked w'
         = [(A, VNum 2, VNum 10); (registrar, VNum 2, VNum 10);
            (B, VNum 2, VNum 10); (late, VNum 2, VNum 10)])
  /\ (exists w',
        setState apply_fn body 5 (VNum 2)
          (world_of (mkStore (VNum 10) [A; leaver; B])) = Done w'
        /\ (leaver, VNum 2, VNum 10) ∈ drop 0 (invoked w')
        /\ (leaver ∉ callbacks (store w'))).
Proof.
  split.
  - apply (notification_walks_the_live_array apply_fn body 5 (VNum 2)
             (world_of (mkStore (VNum 10) [A; registrar; B]))
             [A] registrar [B] late);
      first [ reflexivity | (simpl; lia) | solve_passive ].
  - apply (notification_walks_the_live_array apply_fn body 5 (VNum 2)
             (world_of (mkStore (VNum 10) [A; leaver; B]))
             [A] leaver [B] late);
      first [ reflexivity | (simpl; lia) | solve_passive ].
Defined.

(** C1, as the spec has it, fails: [late] is not registered when the round
    begins, [registrar] subscribes it during the round, and [late] is called
    in that very round. *)
Lemma observer_registered_during_round_is_called :
  let w := world_of (mkStore (VNum 10) [registrar]) in
  (late ∉ callbacks (store w))
  /\ body registrar (VNum 2) (VNum 10) = [CSubscribe late]
  /\ exists w',
      setState apply_fn body 3 (VNum 2) w = Done w'
      /\ invoked w' = [(registrar, VNum 2, VNum 10); (late, VNum 2, VNum 10)]
      /\ ~ (late ∉ invoked_since (length (invoked w)) w').
Proof.
  simpl. split.
  - intros Hin. apply list_elem_of_singleton in Hin. discriminate.
  - split; [reflexivity|]. eexists. split; [reflexivity|].
    split; [reflexivity|]. intros Hnot. apply Hnot.
    apply list_elem_of_further, list_elem_of_here.
Qed.

End StoreExamples.

(** * Properties of the binding *)

Section HookFacts.

Import StoreModel HookModel.

Context (isStore : jsarg -> bool).
Context (random : nat -> Qc).
Context (predicate : fnref -> value -> value -> bool).
Context (apply_fn : fnref -> value -> value).

#[local] Abbreviation body := (subscriber_body random predicate).
#[local] Abbreviation useStore := (useStore isStore).
#[local] Abbreviation render := (render isStore random).
#[local] Abbreviation step := (step isStore random predicate apply_fn).
#[local] Abbreviation run := (run isStore random predicate apply_fn).
#[local] Abbreviation slots_ok := (slots_ok random).

Implicit Types (w : hworld) (h : Host) (r : storeref) (su : ShouldUpdate).

(** *** Notification rounds seen from the component *)

Lemma subscriber_passive (cb : hookfn) : passive body cb.
Proof.
  intros next prev. destruct cb as [id su]. simpl.
  destruct (responds predicate su next prev); repeat constructor.
Qed.

Lemma store_setState_done r update w :
  store_setState random predicate apply_fn r update w
  = Done (after_round body (callbacks (stores w r))
            (next_state apply_fn update (state (stores w r)))
            (state (stores w r))
            (assign (next_state apply_fn update (state (stores w r)))
               {| store := stores w r; ext := host w; invoked := [] |})).
Proof.
  unfold store_setState. rewrite setState_passive; [done| |simpl; lia].
  apply Forall_forall. intros cb _. apply subscriber_passive.
Qed.

Lemma after_setState_host r update w :
  host (after_setState random predicate apply_fn r update w)
  = round_effect body (callbacks (stores w r))
      (next_state apply_fn update (state (stores w r)))
      (state (stores w r)) (host w).
Proof.
  unfold after_setState. by rewrite store_setState_done.
Qed.

(** A property of the host that [setRevision(Math.random())] keeps is kept
    by a whole round. *)
Lemma round_effect_preserves (P : Host -> Prop) l next prev :
  (forall h, P h -> P (force_render random h)) ->
  forall h, P h -> P (round_effect body l next prev h).
Proof.
  intros Hforce. unfold round_effect.
  induction l as [|cb l IH]; intros h Hh; [done|].
  simpl. apply IH. destruct cb as [id su]. simpl.
  destruct (responds predicate su next prev); simpl; [by apply Hforce|done].
Qed.

(** *** The hook slots along a run *)

Lemma force_render_slots_ok h : slots_ok h -> slots_ok (force_render random h).
Proof.
  intros (Hini & Hmemo & Htok). split_and!; try done.
  right. simpl. split_and!; try lia. by rewrite Nat.sub_0_r.
Qed.

Lemma useStore_returns r su w :
  isStore (AStore r) = true ->
  exists fn h,
    useMemo_setState r (host w) = (fn, h)
    /\ useStore (AStore r) su w
       = Returned (getState (stores w r)) fn
           {| stores := stores w;
              host := with_comp (set_pending (Some (r, su))) h |}.
Proof.
  intros Hs. unfold HookModel.useStore. rewrite Hs. simpl.
  destruct (useMemo_setState r (host w)) as [fn h]. eauto.
Qed.

Lemma useMemo_slots_ok r h :
  slots_ok h -> slots_ok (snd (useMemo_setState r h)).
Proof.
  intros (Hini & Hmemo & Htok). unfold useMemo_setState.
  destruct (memo (comp h)) as [[r' fn]|] eqn:Hm;
    [destruct (decide (r' = r)) as [->|Hne]|]; simpl.
  - split_and!; try done. by rewrite Hm.
  - split_and!; try done. intros r0 fn0 [= <- <-]. simpl. split; [lia|done].
  - split_and!; try done. intros r0 fn0 [= <- <-]. simpl. split; [lia|done].
Qed.

Lemma set_pending_slots_ok p h :
  slots_ok h -> slots_ok (with_comp (set_pending p) h).
Proof. intros (Hini & Hmemo & Htok). by split_and!. Qed.

Lemma cleanup_if_any_slots_ok w :
  slots_ok (host w) ->
  slots_ok (host (cleanup_if_any w))
  /\ inited (comp (host (cleanup_if_any w))) = false.
Proof.
  intros (Hini & Hmemo & Htok). unfold cleanup_if_any.
  destruct (cleanup (comp (host w))) as [[r cb]|] eqn:Hcl; simpl.
  - split; [|done]. unfold HookModel.slots_ok. simpl.
    split_and!; [by intros _|exact Hmemo|exact Htok].
  - split; [|by apply Hini]. unfold HookModel.slots_ok.
    split_and!; [by intros _; apply Hini|exact Hmemo|exact Htok].
Qed.

Lemma run_effect_slots_ok r su w :
  slots_ok (host w) ->
  inited (comp (host w)) = false ->
  slots_ok (host (run_effect random r su w)).
Proof.
  intros (Hini & Hmemo & Htok) Hfalse. unfold run_effect.
  destruct (truthy su); simpl.
  - rewrite Hfalse. simpl. split_and!; simpl; try done.
    + intros r0 fn0 Hm. destruct (Hmemo _ _ Hm). split; [lia|done].
    + right. split_and!; try lia. by rewrite Nat.sub_0_r.
  - split_and!; simpl; done.
Qed.

Lemma commit_slots_ok w :
  slots_ok (host w) -> slots_ok (host (commit random w)).
Proof.
  intros Hok. unfold commit.
  destruct (pending (comp (host w))) as [[r su]|]; [|done].
  case_decide; [done|].
  destruct (cleanup_if_any_slots_ok w Hok) as [Hok' Hfalse].
  by apply run_effect_slots_ok.
Qed.

Lemma render_slots_ok a su w :
  slots_ok (host w) -> slots_ok (host (render a su w)).
Proof.
  intros Hok. unfold HookModel.render, HookModel.useStore.
  destruct (isStore a); simpl; [|done].
  destruct a as [r|v]; [|done].
  pose proof (useMemo_slots_ok r (host w) Hok) as Hok'.
  destruct (useMemo_setState r (host w)) as [fn h]. simpl in Hok'.
  apply commit_slots_ok. simpl. by apply set_pending_slots_ok.
Qed.

Lemma after_setState_slots_ok r update w :
  slots_ok (host w) ->
  slots_ok (host (after_setState random predicate apply_fn r update w)).
Proof.
  intros Hok. rewrite after_setState_host.
  apply (round_effect_preserves slots_ok); [|done].
  apply force_render_slots_ok.
Qed.

Lemma unmount_slots_ok w : slots_ok (host (unmount w)).
Proof. unfold unmount. simpl. split_and!; try done. by left. Qed.

Lemma step_slots_ok w e : slots_ok (host w) -> slots_ok (host (step w e)).
Proof.
  intros Hok. destruct e as [a su|r update|]; simpl.
  - by apply render_slots_ok.
  - by apply after_setState_slots_ok.
  - apply unmount_slots_ok.
Qed.

Lemma run_slots_ok es w : slots_ok (host w) -> slots_ok (host (run es w)).
Proof.
  revert w. induction es as [|e es IH]; intros w Hok; [done|].
  simpl. apply IH. by apply step_slots_ok.
Qed.

Lemma reachable_slots_ok w :
  reachable isStore random predicate apply_fn w -> slots_ok (host w).
Proof.
  intros (ss & es & ->). apply run_slots_ok.
  split_and!; try done. by left.
Qed.

(** *** Validation *)

(** C5. A value that fails [isStore] makes the hook throw at once, with the
    world as it was: no subscription is made and no store or hook slot is
    touched. *)
Theorem useStore_rejects_what_is_not_a_store a su w :
  isStore a = false ->
  useStore a su w = Threw InvalidArgument w
  /\ render a su w = w.
Proof.
  intros Hno. unfold HookModel.render, HookModel.useStore.
  by rewrite Hno.
Qed.

(** *** The memoized setter *)

Lemma render_eq r su w :
  isStore (AStore r) = true ->
  render (AStore r) su w
  = commit random
      {| stores := stores w;
         host := with_comp (set_pending (Some (r, su)))
                   (snd (useMemo_setState r (host w))) |}.
Proof.
  intros Hs. unfold HookModel.render, HookModel.useStore. rewrite Hs. simpl.
  by destruct (useMemo_setState r (host w)).
Qed.

Lemma commit_memo w :
  memo (comp (host (commit random w))) = memo (comp (host w)).
Proof.
  unfold commit.
  destruct (pending (comp (host w))) as [[r su]|]; [|done].
  case_decide; [done|].
  unfold run_effect, cleanup_if_any.
  destruct (cleanup (comp (host w))) as [[r0 cb]|]; simpl;
    destruct (truthy su); simpl; try done;
    by destruct (inited (comp (host w))).
Qed.

Lemma step_keeps_memo r fn w e :
  memo (comp (host w)) = Some (r, fn) ->
  keeps_store r e ->
  memo (comp (host (step w e))) = Some (r, fn).
Proof.
  intros Hm Hk. destruct e as [[r'|v] su|r' update|]; simpl in *.
  - subst r'. unfold HookModel.render, HookModel.useStore.
    destruct (isStore (AStore r)); simpl; [|done].
    unfold useMemo_setState. rewrite Hm, decide_True by done.
    by rewrite commit_memo.
  - unfold HookModel.render, HookModel.useStore.
    by destruct (isStore (AOther v)).
  - rewrite after_setState_host.
    by apply (round_effect_preserves
                (fun h => memo (comp h) = Some (r, fn))).
  - done.
Qed.

Lemma run_keeps_memo r fn es :
  forall w,
    memo (comp (host w)) = Some (r, fn) ->
    Forall (keeps_store r) es ->
    memo (comp (host (run es w))) = Some (r, fn).
Proof.
  induction es as [|e es IH]; intros w Hm Hes; [done|].
  apply Forall_cons in Hes as [He Hes].
  simpl. apply IH; [|done]. by apply step_keeps_memo.
Qed.

(** C9. The setter the hook returns is [setState] of the store it was
    given; as long as the component keeps binding to that store, every call
    of the hook returns the same function object, and binding to another
    store returns another one. *)
Theorem useStore_setState_identity_is_stable w r su :
  reachable isStore random predicate apply_fn w ->
  isStore (AStore r) = true ->
  exists st fn w1,
    useStore (AStore r) su w = Returned st fn w1
    /\ bf_this fn = r
    /\ (forall update w0,
          call_bound random predicate apply_fn fn update w0
          = after_setState random predicate apply_fn r update w0)
    /\ (forall es su',
          Forall (keeps_store r) es ->
          exists st' w2,
            useStore (AStore r) su' (run es (commit random w1))
            = Returned st' fn w2)
    /\ (forall es r' su',
          Forall (keeps_store r) es ->
          r' <> r ->
          isStore (AStore r') = true ->
          exists st' fn' w2,
            useStore (AStore r') su' (run es (commit random w1))
            = Returned st' fn' w2
            /\ bf_this fn' = r'
            /\ bf_id fn' <> bf_id fn).
Proof.
  intros Hreach Hs.
  apply reachable_slots_ok in Hreach.
  destruct (useStore_returns r su w Hs) as (fn & h & Hmemo & Hret).
  pose proof (useMemo_slots_ok r (host w) Hreach) as Hok.
  rewrite Hmemo in Hok. simpl in Hok.
  assert (memo (comp h) = Some (r, fn)) as Hm.
  { unfold useMemo_setState in Hmemo.
    destruct (memo (comp (host w))) as [[r0 fn0]|] eqn:Hm0;
      [destruct (decide (r0 = r)) as [->|]|]; simplify_eq; done. }
  set (w1 := {| stores := stores w;
                host := with_comp (set_pending (Some (r, su))) h |}) in *.
  assert (slots_ok (host w1)) as Hok1 by by apply set_pending_slots_ok.
  assert (forall es, Forall (keeps_store r) es ->
            memo (comp (host (run es (commit random w1)))) = Some (r, fn)
            /\ slots_ok (host (run es (commit random w1)))) as Hlater.
  { intros es Hes. split.
    - apply run_keeps_memo; [|done]. by rewrite commit_memo.
    - by apply run_slots_ok, commit_slots_ok. }
  exists (getState (stores w r)), fn, w1. split_and!; try done.
  - destruct Hok as (_ & Hfn & _). by destruct (Hfn _ _ Hm).
  - intros update w0. unfold call_bound.
    destruct Hok as (_ & Hfn & _). by destruct (Hfn _ _ Hm) as [_ ->].
  - intros es su' Hes. destruct (Hlater es Hes) as [Hm2 _].
    unfold HookModel.useStore. rewrite Hs. simpl.
    unfold useMemo_setState. rewrite Hm2, decide_True by done. eauto.
  - intros es r' su' Hes Hne Hs'. destruct (Hlater es Hes) as [Hm2 Hok2].
    unfold HookModel.useStore. rewrite Hs'. simpl.
    unfold useMemo_setState. rewrite Hm2, decide_False by done.
    do 3 eexists. split; [done|]. simpl. split; [done|].
    destruct Hok2 as (_ & Hfn & _). destruct (Hfn _ _ Hm2). lia.
Qed.

(** *** Association and the render token *)

Lemma useMemo_keeps r h :
  let h' := snd (useMemo_setState r h) in
  revision (comp h') = revision (comp h)
  /\ inited (comp h') = inited (comp h)
  /\ effect_deps (comp h') = effect_deps (comp h)
  /\ cleanup (comp h') = cleanup (comp h)
  /\ set_calls (comp h') = set_calls (comp h)
  /\ rerenders (comp h') = rerenders (comp h)
  /\ draws h' = draws h.
Proof.
  unfold useMemo_setState.
  destruct (memo (comp h)) as [[r' fn]|]; [case_decide|]; done.
Qed.

(** What a render does when the key [(store, shouldUpdate)] is new and
    [shouldUpdate] is truthy. *)
Lemma render_associates w r su :
  slots_ok (host w) ->
  isStore (AStore r) = true ->
  truthy su = true ->
  effect_deps (comp (host w)) <> Some (r, su) ->
  let w1 := render (AStore r) su w in
  forced w1 = S (forced w)
  /\ token w1 = random (draws (host w))
  /\ draws (host w1) = S (draws (host w))
  /\ observed w1
     = (if decide (random (draws (host w)) = token w)
        then observed w else S (observed w))
  /\ inited (comp (host w1)) = true
  /\ effect_deps (comp (host w1)) = Some (r, su)
  /\ (forall r0, state (stores w1 r0) = state (stores w r0))
  /\ exists id,
      cleanup (comp (host w1)) = Some (r, Subscriber id su)
      /\ Subscriber id su ∈ callbacks (stores w1 r).
Proof.
  intros Hok Hs Htruthy Hkey w1. subst w1. rewrite render_eq by done.
  destruct (useMemo_keeps r (host w))
    as (Hrev & Hini & Hdeps & Hcl & Hcalls & Hrer & Hdraws).
  destruct Hok as (Hflag & _ & _).
  unfold commit. simpl. rewrite Hdeps, decide_False by done.
  unfold run_effect, cleanup_if_any, forced, token, observed. simpl.
  rewrite Htruthy, Hcl. simpl.
  destruct (cleanup (comp (host w))) as [[r0 cb]|] eqn:Hc; simpl.
  - rewrite Hdraws, Hrev, Hcalls, Hrer. split_and!; try done.
    + intros r1. unfold insert, fn_insert.
      repeat case_decide; subst; done.
    + eexists. split; [done|].
      rewrite fn_lookup_insert. simpl. apply elem_of_app. right.
      apply list_elem_of_singleton. done.
  - rewrite Hini, (Hflag eq_refl). simpl.
    rewrite Hdraws, Hrev, Hcalls, Hrer. split_and!; try done.
    + intros r1. unfold insert, fn_insert. case_decide; subst; done.
    + eexists. split; [done|].
      rewrite fn_lookup_insert. simpl. apply elem_of_app. right.
      apply list_elem_of_singleton. done.
Qed.

(** A render under the key of the last effect run forces nothing. *)
Lemma render_same_key w r su :
  isStore (AStore r) = true ->
  effect_deps (comp (host w)) = Some (r, su) ->
  forced (render (AStore r) su w) = forced w.
Proof.
  intros Hs Hkey. rewrite render_eq by done.
  destruct (useMemo_keeps r (host w))
    as (Hrev & Hini & Hdeps & Hcl & Hcalls & Hrer & Hdraws).
  unfold commit, forced. simpl. rewrite Hdeps, decide_True by done.
  simpl. done.
Qed.

(** A render under a new key with a falsy [shouldUpdate] tears the
    subscription down. *)
Lemma render_dissociates w r su :
  slots_ok (host w) ->
  isStore (AStore r) = true ->
  truthy su = false ->
  effect_deps (comp (host w)) <> Some (r, su) ->
  let w1 := render (AStore r) su w in
  forced w1 = forced w
  /\ inited (comp (host w1)) = false
  /\ cleanup (comp (host w1)) = None
  /\ effect_deps (comp (host w1)) = Some (r, su).
Proof.
  intros Hok Hs Hfalsy Hkey w1. subst w1. rewrite render_eq by done.
  destruct (useMemo_keeps r (host w))
    as (Hrev & Hini & Hdeps & Hcl & Hcalls & Hrer & Hdraws).
  destruct Hok as (Hflag & _ & _).
  unfold commit. simpl. rewrite Hdeps, decide_False by done.
  unfold run_effect, cleanup_if_any, forced. simpl.
  rewrite Hfalsy, Hcl. simpl.
  destruct (cleanup (comp (host w))) as [[r0 cb]|] eqn:Hc; simpl.
  - by rewrite Hcalls.
  - by rewrite Hcalls, Hini, (Hflag eq_refl).
Qed.

Lemma draw_is_not_initial (q : Qc) : (0 <= q)%Qc -> q <> (- 1)%Qc.
Proof. intros Hq ->. by apply Hq. Qed.

(** C6. When a component binds with a truthy [shouldUpdate] under a key
    [(store, shouldUpdate)] that is new (the first render, or a changed
    key), the effect calls [setRevision(Math.random())] exactly once, with
    no store mutation involved, and holds a subscription; at the first
    binding since mount the host always sees the token change.  A render
    under the same key forces nothing more; after a teardown, by a falsy
    key or by unmounting, the flag is cleared and binding again forces one
    render again. *)
Theorem useStore_forces_one_render_on_association w r su :
  reachable isStore random predicate apply_fn w ->
  isStore (AStore r) = true ->
  truthy su = true ->
  effect_deps (comp (host w)) <> Some (r, su) ->
  let w1 := render (AStore r) su w in
  forced w1 = S (forced w)
  /\ token w1 = random (draws (host w))
  /\ (random (draws (host w)) <> token w -> observed w1 = S (observed w))
  /\ ((forall n, (0 <= random n)%Qc /\ (random n < 1)%Qc) ->
      forced w = 0 -> observed w1 = S (observed w))
  /\ inited (comp (host w1)) = true
  /\ (forall r0, state (stores w1 r0) = state (stores w r0))
  /\ (exists id,
        cleanup (comp (host w1)) = Some (r, Subscriber id su)
        /\ Subscriber id su ∈ callbacks (stores w1 r))
  /\ forced (render (AStore r) su w1) = forced w1
  /\ (let w2 := render (AStore r) (SUBool false) w1 in
      inited (comp (host w2)) = false
      /\ forced w2 = forced w1
      /\ forced (render (AStore r) su w2) = S (forced w2))
  /\ (let w3 := unmount w1 in
      inited (comp (host w3)) = false
      /\ forced (render (AStore r) su w3) = S (forced w3)).
Proof.
  intros Hreach Hs Htruthy Hkey w1.
  apply reachable_slots_ok in Hreach.
  destruct (render_associates w r su Hreach Hs Htruthy Hkey)
    as (Hforced & Htoken & _ & Hobs & Hini & Hdeps & Hstate & Hsub).
  fold w1 in Hforced, Htoken, Hobs, Hini, Hdeps, Hstate, Hsub.
  assert (slots_ok (host w1)) as Hok1 by by apply render_slots_ok.
  split_and!; try done.
  - intros Hne. rewrite Hobs. by rewrite decide_False.
  - intros Hrange Hzero. rewrite Hobs, decide_False; [done|].
    destruct Hreach as (_ & _ & [[_ Hrev]|[Hpos _]]);
      [|unfold forced in Hzero; lia].
    unfold token. rewrite Hrev. apply draw_is_not_initial, Hrange.
  - by apply render_same_key.
  - assert (effect_deps (comp (host w1)) <> Some (r, SUBool false)) as Hkey2.
    { rewrite Hdeps. intros [= Heq]. by rewrite Heq in Htruthy. }
    destruct (render_dissociates w1 r (SUBool false) Hok1 Hs eq_refl Hkey2)
      as (Hf2 & Hi2 & _ & Hd2).
    split_and!; try done.
    apply render_associates; try done.
    + by apply render_slots_ok.
    + rewrite Hd2. intros [= Heq]. by rewrite <- Heq in Htruthy.
  - split; [done|].
    by apply render_associates; [apply unmount_slots_ok|..].
Qed.

(** C7, as the code has it. The render token is [-1] until the first forced
    render and the latest [Math.random()] draw afterwards: a forced render
    sets it to the next draw.  The host sees a change exactly when that
    draw differs from the current token, which is always so for the first
    forced render, the draws lying in [0, 1). *)
Theorem render_token_is_the_latest_draw w :
  (forall n, (0 <= random n)%Qc /\ (random n < 1)%Qc) ->
  reachable isStore random predicate apply_fn w ->
  (forced w = 0 -> token w = (- 1)%Qc)
  /\ (0 < forced w ->
      0 < draws (host w)
      /\ token w = random (draws (host w) - 1)
      /\ token w <> (- 1)%Qc)
  /\ (let h' := force_render random (host w) in
      revision (comp h') = random (draws (host w))
      /\ set_calls (comp h') = S (forced w)
      /\ draws h' = S (draws (host w))
      /\ (rerenders (comp h') = S (observed w)
          <-> random (draws (host w)) <> token w)
      /\ (forced w = 0 -> rerenders (comp h') = S (observed w))).
Proof.
  intros Hrange Hreach.
  apply reachable_slots_ok in Hreach as (_ & _ & Htok).
  unfold forced, token, observed in *. split; [|split].
  - intros Hz. destruct Htok as [[_ Hrev]|[Hpos _]]; [done|lia].
  - intros Hpos. destruct Htok as [[Hz _]|(_ & Hd & Hrev)]; [lia|].
    split_and!; try done. rewrite Hrev.
    apply draw_is_not_initial, Hrange.
  - simpl. split_and!; try done.
    + case_decide; split; try done; lia.
    + intros Hz. destruct Htok as [[_ Hrev]|[Hpos _]]; [|lia].
      rewrite decide_False; [done|]. rewrite Hrev.
      apply draw_is_not_initial, Hrange.
Qed.

End HookFacts.

(** * Further properties of the binding *)

Section HookLifecycle.

Import StoreModel HookModel.

Context (isStore : jsarg -> bool).
Context (random : nat -> Qc).
Context (predicate : fnref -> value -> value -> bool).
Context (apply_fn : fnref -> value -> value).

#[local] Abbreviation body := (subscriber_body random predicate).
#[local] Abbreviation useStore := (useStore isStore).
#[local] Abbreviation render := (render isStore random).
#[local] Abbreviation after_setState :=
  (after_setState random predicate apply_fn).
#[local] Abbreviation step := (step isStore random predicate apply_fn).
#[local] Abbreviation run := (run isStore random predicate apply_fn).

Implicit Types (w : hworld) (h : Host) (r : storeref) (su : ShouldUpdate).

(** *** What a store update does to the stores and to the component *)

Lemma after_setState_stores r update w :
  stores (after_setState r update w)
  = <[r := {| state := next_state apply_fn update (state (stores w r));
              callbacks := callbacks (stores w r) |}]> (stores w).
Proof.
  unfold HookModel.after_setState.
  by rewrite (store_setState_done random predicate apply_fn).
Qed.

Lemma after_setState_callbacks r update w r' :
  callbacks (stores (after_setState r update w) r') = callbacks (stores w r').
Proof.
  rewrite after_setState_stores. unfold insert, fn_insert.
  case_decide; by subst.
Qed.

Lemma after_setState_slots r update w :
  cleanup (comp (host (after_setState r update w))) = cleanup (comp (host w))
  /\ effect_deps (comp (host (after_setState r update w)))
     = effect_deps (comp (host w)).
Proof.
  rewrite (after_setState_host random predicate apply_fn).
  apply (round_effect_preserves random predicate
           (fun h => cleanup (comp h) = cleanup (comp (host w))
                     /\ effect_deps (comp h) = effect_deps (comp (host w))));
    done.
Qed.

(** *** The subscription the component holds *)

Lemma cleanup_if_any_unobserved w :
  binding_ok w -> unobserved (cleanup_if_any w).
Proof.
  intros [Hcs Hcl] r. unfold cleanup_if_any.
  unfold own_subscription in Hcs.
  destruct (cleanup (comp (host w))) as [[r0 cb]|]; simpl; [|by rewrite Hcs].
  unfold insert, fn_insert. case_decide as Hr.
  - subst r0. rewrite (unsubscribe_callbacks apply_fn body), Hcs.
    rewrite decide_True by done.
    by rewrite filter_cons, decide_False, filter_nil by tauto.
  - rewrite Hcs. by rewrite decide_False.
Qed.

Lemma run_effect_binding_ok r su w :
  unobserved w -> binding_ok (run_effect random r su w).
Proof.
  intros Hun. unfold run_effect, binding_ok, own_subscription.
  destruct (truthy su) eqn:Htruthy; simpl.
  - split.
    + intros r'. unfold insert, fn_insert.
      destruct (inited (comp (host w))); simpl;
        case_decide; subst; simpl; by rewrite ?Hun.
    + destruct (inited (comp (host w))); simpl; eauto.
  - split; [done|]. intros r' su' [= <- <-]. done.
Qed.

Lemma commit_binding_ok w : binding_ok w -> binding_ok (commit random w).
Proof.
  intros Hok. unfold commit.
  destruct (pending (comp (host w))) as [[r su]|]; [|done].
  case_decide; [done|].
  by apply run_effect_binding_ok, cleanup_if_any_unobserved.
Qed.

Lemma render_binding_ok a su w : binding_ok w -> binding_ok (render a su w).
Proof.
  intros Hok. unfold HookModel.render, HookModel.useStore.
  destruct (isStore a); simpl; [|done].
  destruct a as [r|v]; [|done].
  destruct (useMemo_keeps r (host w))
    as (_ & _ & Hdeps & Hcl & _).
  destruct (useMemo_setState r (host w)) as [fn h]. simpl in *.
  apply commit_binding_ok.
  unfold binding_ok, own_subscription in *. simpl. by rewrite Hcl, Hdeps.
Qed.

Lemma after_setState_binding_ok r update w :
  binding_ok w -> binding_ok (after_setState r update w).
Proof.
  intros [Hcs Hcl]. destruct (after_setState_slots r update w) as [Hc Hd].
  unfold binding_ok, own_subscription in *. rewrite Hc, Hd.
  split; [|done]. intros r'. by rewrite after_setState_callbacks.
Qed.

Lemma unmount_binding_ok w : binding_ok w -> binding_ok (unmount w).
Proof.
  intros Hok. pose proof (cleanup_if_any_unobserved w Hok) as Hun.
  unfold unmount, binding_ok, own_subscription. simpl. split; [|done].
  intros r. apply Hun.
Qed.

Lemma run_binding_ok es :
  forall w, binding_ok w -> binding_ok (run es w).
Proof.
  induction es as [|e es IH]; intros w Hok; [done|].
  simpl. apply IH. destruct e as [a su|r update|]; simpl.
  - by apply render_binding_ok.
  - by apply after_setState_binding_ok.
  - by apply unmount_binding_ok.
Qed.

(** Along every run that starts without observers the component never
    leaves a subscriber behind: the observer list of each store holds the
    subscriber of the current binding, when the binding is to that store
    and its [shouldUpdate] is truthy, and nothing else. *)
Theorem component_holds_one_subscription w :
  reachable_unobserved isStore random predicate apply_fn w ->
  (forall r, callbacks (stores w r) = own_subscription w r)
  /\ (forall r, length (callbacks (stores w r)) <= 1)
  /\ (forall r su,
        effect_deps (comp (host w)) = Some (r, su) ->
        truthy su = false ->
        forall r', callbacks (stores w r') = [])
  /\ (forall r su,
        effect_deps (comp (host w)) = Some (r, su) ->
        truthy su = true ->
        exists id,
          callbacks (stores w r) = [Subscriber id su]
          /\ forall r', r' <> r -> callbacks (stores w r') = []).
Proof.
  intros (ss & es & Hss & ->).
  assert (binding_ok (run es (initial ss))) as [Hcs Hcl].
  { apply run_binding_ok. split; [|done]. intros r. apply Hss. }
  unfold own_subscription in *.
  split_and!.
  - done.
  - intros r. rewrite Hcs.
    destruct (cleanup _) as [[r0 cb]|]; [case_decide|]; simpl; lia.
  - intros r su Hd Hf r'. rewrite Hcs.
    destruct (cleanup _) as [[r0 cb]|]; [|done].
    destruct Hcl as (id & su0 & -> & Hd0 & Ht). congruence.
  - intros r su Hd Ht.
    destruct (cleanup _) as [[r0 cb]|].
    + destruct Hcl as (id & su0 & -> & Hd0 & _).
      assert (r0 = r /\ su0 = su) as [-> ->] by (split; congruence).
      exists id. split.
      * by rewrite Hcs, decide_True.
      * intros r' Hne. by rewrite Hcs, decide_False.
    + specialize (Hcl r su Hd). congruence.
Qed.

Lemma reachable_unobserved_binding_ok w :
  reachable_unobserved isStore random predicate apply_fn w -> binding_ok w.
Proof.
  intros (ss & es & Hss & ->).
  apply run_binding_ok. split; [|done]. intros r. apply Hss.
Qed.

(** *** Store updates and forced renders *)

(** A [setState] on the bound store stores the next state and forces one
    render exactly when [shouldUpdate] is [true], or is a function that
    holds of [(nextState, prevState)]; with a falsy [shouldUpdate] it
    forces none, and a [setState] on another store never does. *)
Theorem store_update_forces_render_when_responsive w r su update :
  reachable_unobserved isStore random predicate apply_fn w ->
  effect_deps (comp (host w)) = Some (r, su) ->
  let prevState := getState (stores w r) in
  let nextState := next_state apply_fn update prevState in
  let w' := after_setState r update w in
  getState (stores w' r) = nextState
  /\ forced w'
     = forced w
       + (if truthy su && responds predicate su nextState prevState
          then 1 else 0)
  /\ (truthy su && responds predicate su nextState prevState = true ->
      token w' = random (draws (host w)))
  /\ (truthy su && responds predicate su nextState prevState = false ->
      host w' = host w)
  /\ (forall r' update',
        r' <> r -> host (after_setState r' update' w) = host w).
Proof.
  intros Hreach Hd prevState nextState w'.
  apply reachable_unobserved_binding_ok in Hreach as [Hcs Hcl].
  unfold own_subscription in Hcs. subst w' nextState prevState.
  unfold getState.
  assert (state (stores (after_setState r update w) r)
          = next_state apply_fn update (state (stores w r))) as Hst.
  { rewrite after_setState_stores. by rewrite fn_lookup_insert. }
  unfold forced, token.
  rewrite !(after_setState_host random predicate apply_fn).
  set (prevState := state (stores w r)) in *.
  set (nextState := next_state apply_fn update prevState) in *.
  destruct (cleanup (comp (host w))) as [[r0 cb]|] eqn:Hc.
  - destruct Hcl as (id & su0 & -> & Hd0 & Ht).
    assert (r0 = r /\ su0 = su) as [-> ->] by (split; congruence).
    rewrite Hcs, decide_True, Ht by done. simpl.
    unfold round_effect. simpl.
    destruct (responds predicate su nextState prevState); simpl.
    + split_and!; try done; try lia.
      intros r' update' Hne.
      rewrite (after_setState_host random predicate apply_fn).
      by rewrite Hcs, decide_False.
    + split_and!; try done; try lia.
      intros r' update' Hne.
      rewrite (after_setState_host random predicate apply_fn).
      by rewrite Hcs, decide_False.
  - rewrite (Hcl r su Hd), Hcs. simpl. split_and!; try done; try lia.
    intros r' update' Hne.
    rewrite (after_setState_host random predicate apply_fn).
    by rewrite Hcs.
Qed.

(** The state the hook returns is read from the store when the hook is
    called: after a [setState] on the store, the next call returns the new
    state, whether or not a render was forced; an update of another store
    does not change it. *)
Theorem useStore_returns_current_state w r su update :
  isStore (AStore r) = true ->
  (exists fn w1,
      useStore (AStore r) su (after_setState r update w)
      = Returned (next_state apply_fn update (getState (stores w r))) fn w1)
  /\ (forall r', r' <> r ->
        exists fn w1,
          useStore (AStore r) su (after_setState r' update w)
          = Returned (getState (stores w r)) fn w1).
Proof.
  intros Hs. split.
  - destruct (useStore_returns isStore r su (after_setState r update w) Hs)
      as (fn & h & _ & Hret).
    rewrite Hret, after_setState_stores, fn_lookup_insert. eauto.
  - intros r' Hne.
    destruct (useStore_returns isStore r su (after_setState r' update w) Hs)
      as (fn & h & _ & Hret).
    rewrite Hret, after_setState_stores, fn_lookup_insert_ne by done. eauto.
Qed.

(** Once the component is unmounted no store holds an observer of it: a
    later [setState], through the function the hook returned or otherwise,
    still updates the store and does not reach the component. *)
Theorem unmounted_component_is_not_notified w :
  reachable_unobserved isStore random predicate apply_fn w ->
  (forall r, callbacks (stores (unmount w) r) = [])
  /\ (forall r, getState (stores (unmount w) r) = getState (stores w r))
  /\ (forall fn update,
        let w' := call_bound random predicate apply_fn fn update (unmount w) in
        host w' = host (unmount w)
        /\ getState (stores w' (bf_this fn))
           = next_state apply_fn update (getState (stores w (bf_this fn)))).
Proof.
  intros Hreach.
  apply reachable_unobserved_binding_ok in Hreach.
  pose proof (cleanup_if_any_unobserved w Hreach) as Hun.
  assert (forall r, getState (stores (unmount w) r) = getState (stores w r))
    as Hst.
  { intros r. unfold unmount, cleanup_if_any. simpl.
    destruct (cleanup (comp (host w))) as [[r0 cb]|]; [|done]. simpl.
    unfold insert, fn_insert. case_decide; by subst. }
  split; [|split].
  - intros r. apply Hun.
  - done.
  - intros fn update w'. subst w'. unfold call_bound. split.
    + rewrite (after_setState_host random predicate apply_fn).
      assert (callbacks (stores (unmount w) (bf_this fn)) = []) as ->
        by apply Hun.
      done.
    + rewrite after_setState_stores, fn_lookup_insert. simpl.
      by rewrite <- Hst.
Qed.

(** *** Earlier versions of the hook *)

Lemma render_earlier_eq effect r su w :
  isStore (AStore r) = true ->
  render_earlier isStore effect (AStore r) su w
  = commit_earlier effect
      {| stores := stores w;
         host := with_comp (set_pending (Some (r, su)))
                   (snd (useMemo_setState r (host w))) |}.
Proof.
  intros Hs. unfold render_earlier, HookModel.useStore. rewrite Hs. simpl.
  by destruct (useMemo_setState r (host w)).
Qed.

(** In the version that returns the unsubscribe function as the cleanup,
    the flag is never cleared: the first binding with a truthy
    [shouldUpdate] forces one render, and once the flag is set no later
    render forces one, under a new key or not. *)
Theorem flag_kept_version_forces_once_per_mount w r su :
  isStore (AStore r) = true ->
  let w1 := render_earlier isStore (run_effect_flag_kept random)
              (AStore r) su w in
  (inited (comp (host w)) = true ->
   forced w1 = forced w /\ token w1 = token w
   /\ inited (comp (host w1)) = true)
  /\ (inited (comp (host w)) = false ->
      truthy su = true ->
      effect_deps (comp (host w)) <> Some (r, su) ->
      forced w1 = S (forced w)
      /\ token w1 = random (draws (host w))
      /\ inited (comp (host w1)) = true).
Proof.
  intros Hs w1. subst w1. rewrite render_earlier_eq by done.
  destruct (useMemo_keeps r (host w))
    as (Hrev & Hini & Hdeps & Hcl & Hcalls & Hrer & Hdraws).
  unfold commit_earlier, forced, token. simpl. rewrite Hdeps.
  split.
  - intros Hset. case_decide; simpl; [by rewrite Hrev, Hcalls, Hini|].
    unfold run_effect_flag_kept, unsubscribe_if_any. simpl. rewrite Hcl.
    destruct (cleanup (comp (host w))) as [[r0 cb]|]; simpl;
      destruct (truthy su); simpl; rewrite ?Hini, ?Hset; simpl;
      rewrite ?Hrev, ?Hcalls, ?Hini, ?Hset; done.
  - intros Hclear Ht Hkey. rewrite decide_False by done.
    unfold run_effect_flag_kept, unsubscribe_if_any. simpl. rewrite Hcl.
    destruct (cleanup (comp (host w))) as [[r0 cb]|]; simpl;
      rewrite Ht; simpl; rewrite Hini, Hclear; simpl;
      rewrite ?Hcalls, ?Hdraws; done.
Qed.

(** In the first version, without the flag, a render never forces
    another one: a [setState] that comes between the first render and the
    commit is missed, the component keeps showing the state it read before
    and nothing makes it render again. *)
Theorem plain_version_misses_update_before_commit w r su update :
  isStore (AStore r) = true ->
  forced (render_earlier isStore (run_effect_plain) (AStore r) su w)
  = forced w
  /\ (unobserved w ->
      exists st fn w1,
        useStore (AStore r) su w = Returned st fn w1
        /\ st = getState (stores w r)
        /\ let w2 := commit_earlier run_effect_plain
                       (after_setState r update w1) in
           forced w2 = forced w
           /\ token w2 = token w
           /\ getState (stores w2 r)
              = next_state apply_fn update (getState (stores w r))).
Proof.
  intros Hs.
  destruct (useMemo_keeps r (host w))
    as (Hrev & Hini & Hdeps & Hcl & Hcalls & Hrer & Hdraws).
  assert (forall w0, forced (commit_earlier run_effect_plain w0) = forced w0
                     /\ token (commit_earlier run_effect_plain w0) = token w0
                     /\ forall r0, getState (stores (commit_earlier
                                       run_effect_plain w0) r0)
                                   = getState (stores w0 r0)) as Hcommit.
  { intros w0. unfold commit_earlier, forced, token.
    destruct (pending (comp (host w0))) as [[r0 su0]|]; [|done].
    case_decide; [done|].
    unfold run_effect_plain, unsubscribe_if_any.
    destruct (cleanup (comp (host w0))) as [[r1 cb]|]; simpl;
      destruct (truthy su0); simpl; split_and!; try done;
      intros r2; unfold insert, fn_insert;
      repeat (case_decide; subst; simpl); done. }
  split.
  - rewrite render_earlier_eq by done.
    destruct (Hcommit {| stores := stores w;
                         host := with_comp (set_pending (Some (r, su)))
                                   (snd (useMemo_setState r (host w))) |})
      as (Hf & _). rewrite Hf. unfold forced. simpl. done.
  - intros Hun.
    destruct (useStore_returns isStore r su w Hs) as (fn & h & Hm & Hret).
    rewrite Hm in *. simpl in *.
    do 3 eexists. split; [exact Hret|]. split; [done|]. simpl.
    destruct (Hcommit (after_setState r update
                         {| stores := stores w;
                            host := with_comp (set_pending (Some (r, su))) h |}))
      as (Hf & Ht & Hst).
    rewrite Hf, Ht, Hst. unfold forced, token.
    rewrite (after_setState_host random predicate apply_fn),
      after_setState_stores, fn_lookup_insert. simpl.
    rewrite (Hun r). simpl. by rewrite Hrev, Hcalls.
Qed.

End HookLifecycle.

(** ** The statements on the component of the examples *)

Section HookExamples.

Import StoreModel HookModel HookScenario.

Lemma initial_reachable random :
  reachable isStore random predicate Scenario.apply_fn (initial stores0).
Proof. by exists stores0, []. Qed.

Lemma steady_in_range n : (0 <= steady n)%Qc /\ (steady n < 1)%Qc.
Proof. split; by vm_compute. Qed.

Lemma useStore_rejects_what_is_not_a_store_witness :
  useStore isStore (AOther VUndefined) (SUBool true) (initial stores0)
  = Threw InvalidArgument (initial stores0).
Proof.
  apply (useStore_rejects_what_is_not_a_store isStore steady
           (AOther VUndefined) (SUBool true) (initial stores0)).
  reflexivity.
Defined.

Lemma useStore_setState_identity_is_stable_witness :
  exists st fn w1,
    useStore isStore (AStore 0) (SUBool true) (initial stores0)
    = Returned st fn w1
    /\ bf_this fn = 0
    /\ exists st' w2,
        useStore isStore (AStore 0) (SUBool false)
          (run isStore steady predicate Scenario.apply_fn
             [ESetState 0 (VNum 5)] (commit steady w1))
        = Returned st' fn w2.
Proof.
  destruct (useStore_setState_identity_is_stable isStore steady predicate
              Scenario.apply_fn (initial stores0) 0 (SUBool true)
              (initial_reachable steady) eq_refl)
    as (st & fn & w1 & Hret & Hthis & _ & Hsame & _).
  exists st, fn, w1. split; [exact Hret|]. split; [exact Hthis|].
  apply (Hsame [ESetState 0 (VNum 5)] (SUBool false)).
  apply Forall_cons_2; [exact I|apply Forall_nil_2].
Defined.

Lemma useStore_forces_one_render_on_association_witness :
  let w1 := render isStore steady (AStore 0) (SUBool true) (initial stores0) in
  forced w1 = 1 /\ token w1 = steady 0 /\ inited (comp (host w1)) = true.
Proof.
  assert (effect_deps (comp (host (initial stores0)))
          <> Some (0, SUBool true)) as Hkey by discriminate.
  destruct (useStore_forces_one_render_on_association isStore steady
              predicate Scenario.apply_fn (initial stores0) 0 (SUBool true)
              (initial_reachable steady) eq_refl eq_refl Hkey)
    as (Hforced & Htoken & _ & _ & Hini & _).
  split; [exact Hforced|]. split; [exact Htoken|exact Hini].
Defined.

Lemma render_token_is_the_latest_draw_witness :
  let w := run isStore steady predicate Scenario.apply_fn two_updates
             (initial stores0) in
  0 < forced w /\ token w = steady (draws (host w) - 1).
Proof.
  assert (reachable isStore steady predicate Scenario.apply_fn
            (run isStore steady predicate Scenario.apply_fn two_updates
               (initial stores0))) as Hreach
    by (exists stores0, two_updates; reflexivity).
  destruct (render_token_is_the_latest_draw isStore steady predicate
              Scenario.apply_fn _ steady_in_range Hreach)
    as (_ & Hpos & _).
  assert (0 < forced (run isStore steady predicate Scenario.apply_fn
                        two_updates (initial stores0))) as Hf
    by (vm_compute; lia).
  split; [exact Hf|]. exact (proj1 (proj2 (Hpos Hf))).
Defined.

(** C7, as the spec has it, fails.  With a [Math.random] that returns 0.5
    every time, the second and third forced renders leave the token where
    it was, and the host sees no change; with one that returns 0.75 and
    0.25 in turn, the token goes down and then comes back to an earlier
    value. *)
Lemma render_token_repeats_and_decreases :
  (forall n, (0 <= steady n)%Qc /\ (steady n < 1)%Qc)
  /\ (let w := run isStore steady predicate Scenario.apply_fn two_updates
                 (initial stores0) in
      forced w = 3 /\ observed w = 1)
  /\ tokens isStore steady predicate Scenario.apply_fn two_updates
       (initial stores0)
     = [(- 1)%Qc; Q2Qc (1 # 2); Q2Qc (1 # 2); Q2Qc (1 # 2)]
  /\ tokens isStore alternating predicate Scenario.apply_fn two_updates
       (initial stores0)
     = [(- 1)%Qc; Q2Qc (3 # 4); Q2Qc (1 # 4); Q2Qc (3 # 4)]
  /\ (Q2Qc (1 # 4) < Q2Qc (3 # 4))%Qc
  /\ ~ NoDup (tokens isStore alternating predicate Scenario.apply_fn
                two_updates (initial stores0)).
Proof.
  split; [exact steady_in_range|].
  split; [by vm_compute|].
  split; [by vm_compute|].
  split; [by vm_compute|].
  split; [by vm_compute|].
  intros Hnd. vm_compute in Hnd.
  apply NoDup_cons in Hnd as [_ Hnd].
  apply NoDup_cons in Hnd as [Hnot _].
  apply Hnot. apply list_elem_of_further, list_elem_of_here.
Qed.

End HookExamples.

Section HookLifecycleExamples.

Import StoreModel HookModel HookScenario.

Lemma run_reachable_unobserved random es :
  reachable_unobserved isStore random predicate Scenario.apply_fn
    (run isStore random predicate Scenario.apply_fn es (initial stores0)).
Proof. exists stores0, es. split; [done|reflexivity]. Qed.

Lemma component_holds_one_subscription_witness :
  let w := run isStore steady predicate Scenario.apply_fn
             [ERender (AStore 0) (SUBool true);
              ERender (AStore 1) (SUFun 3);
              ESetState 1 (VNum 5)] (initial stores0) in
  callbacks (stores w 0) = [] /\ length (callbacks (stores w 1)) <= 1.
Proof.
  destruct (component_holds_one_subscription isStore steady predicate
              Scenario.apply_fn _
              (run_reachable_unobserved steady
                 [ERender (AStore 0) (SUBool true);
                  ERender (AStore 1) (SUFun 3);
                  ESetState 1 (VNum 5)]))
    as (Hown & Hone & _).
  split; [exact (Hown 0)|exact (Hone 1)].
Defined.

Lemma store_update_forces_render_when_responsive_witness :
  let w := run isStore steady predicate Scenario.apply_fn
             [ERender (AStore 0) (SUFun 3)] (initial stores0) in
  forced (after_setState steady predicate Scenario.apply_fn 0 (VNum 0) w)
  = forced w
  /\ forced (after_setState steady predicate Scenario.apply_fn 0 (VNum 5) w)
     = forced w + 1.
Proof.
  split.
  - exact (proj1 (proj2
      (store_update_forces_render_when_responsive isStore steady predicate
         Scenario.apply_fn _ 0 (SUFun 3) (VNum 0)
         (run_reachable_unobserved steady [ERender (AStore 0) (SUFun 3)])
         eq_refl))).
  - exact (proj1 (proj2
      (store_update_forces_render_when_responsive isStore steady predicate
         Scenario.apply_fn _ 0 (SUFun 3) (VNum 5)
         (run_reachable_unobserved steady [ERender (AStore 0) (SUFun 3)])
         eq_refl))).
Defined.

Lemma useStore_returns_current_state_witness :
  exists fn w1,
    useStore isStore (AStore 0) (SUBool false)
      (after_setState steady predicate Scenario.apply_fn 0 (VNum 5)
         (initial stores0))
    = Returned (VNum 5) fn w1.
Proof.
  exact (proj1
    (useStore_returns_current_state isStore steady predicate
       Scenario.apply_fn (initial stores0) 0 (SUBool false) (VNum 5)
       eq_refl)).
Defined.

Lemma unmounted_component_is_not_notified_witness :
  let w := run isStore steady predicate Scenario.apply_fn
             [ERender (AStore 0) (SUBool true)] (initial stores0) in
  callbacks (stores (unmount w) 0) = []
  /\ forced (call_bound steady predicate Scenario.apply_fn (mkBound 0 0)
               (VNum 5) (unmount w)) = 0.
Proof.
  destruct (unmounted_component_is_not_notified isStore steady predicate
              Scenario.apply_fn _
              (run_reachable_unobserved steady
                 [ERender (AStore 0) (SUBool true)]))
    as (Hnone & _ & Hcall).
  split; [exact (Hnone 0)|].
  destruct (Hcall (mkBound 0 0) (VNum 5)) as [Hhost _].
  unfold forced. rewrite Hhost. reflexivity.
Defined.

Lemma flag_kept_version_forces_once_per_mount_witness :
  let w1 := render_earlier isStore (run_effect_flag_kept steady)
              (AStore 0) (SUBool true) (initial stores0) in
  let w2 := render_earlier isStore (run_effect_flag_kept steady)
              (AStore 0) (SUBool false) w1 in
  let w3 := render_earlier isStore (run_effect_flag_kept steady)
              (AStore 0) (SUBool true) w2 in
  forced w1 = 1 /\ forced w3 = forced w2.
Proof.
  split.
  - apply (flag_kept_version_forces_once_per_mount isStore steady
             (initial stores0) 0 (SUBool true) eq_refl);
      first [ reflexivity | discriminate ].
  - apply (flag_kept_version_forces_once_per_mount isStore steady
             _ 0 (SUBool true) eq_refl).
    reflexivity.
Defined.

Lemma plain_version_misses_update_before_commit_witness :
  forced (render_earlier isStore run_effect_plain (AStore 0) (SUBool true)
            (initial stores0)) = 0.
Proof.
  exact (proj1
    (plain_version_misses_update_before_commit isStore steady predicate
       Scenario.apply_fn (initial stores0) 0 (SUBool true) (VNum 5)
       eq_refl)).
Defined.

End HookLifecycleExamples.
